(** * LiveView: realtime audio session, playback scheduling and teardown

    A shallow embedding of [src/components/LiveView.tsx] (the React component
    that drives a Gemini Live voice session) together with the PCM16 sample
    codec it imports from [utils/audioUtils].

    - React state ([isActive], [status], [errorMessage]) and the [useRef]
      cells are fields of one record, [World].
    - Calls into the browser and the SDK are recorded, in call order, in the
      [effects] field; a call that can throw consults an oracle [raises].
    - Handlers are programs of a small state-and-exception monad [M]: a
      [throw] keeps every mutation made before it, as in JavaScript.
    - Times (seconds on the output clock, buffer durations) and samples are
      exact rationals. *)

From Stdlib Require Import ZArith QArith Qabs List String Ascii Bool Lia.
Import ListNotations.

Set Implicit Arguments.

(* ================================================================== *)
(** ** Data *)
(* ================================================================== *)

(** [useState<'disconnected' | 'connecting' | 'connected' | 'error'>] *)
Inductive Status : Type :=
| Disconnected
| Connecting
| Connected
| Error.

Definition Status_eqb (a b : Status) : bool :=
  match a, b with
  | Disconnected, Disconnected | Connecting, Connecting
  | Connected, Connected | Error, Error => true
  | _, _ => false
  end.

(** Browser objects are known by identity; an identity is a number handed out
    by the allocator of the [World]. *)
Record AudioContext : Type := mkAudioContext
  { ctxId : nat;
    ctxSampleRate : Z }.

Record MediaStream : Type := mkMediaStream
  { streamId : nat;
    getTracks : list nat }.

(** A decoded buffer: interleaved samples, the declared rate and channel
    count.  [bufferLength] is the number of frames, [duration] is
    [length / sampleRate] as in the Web Audio API. *)
Record AudioBuffer : Type := mkAudioBuffer
  { numberOfChannels : positive;
    sampleRate : positive;
    samples : list Q }.

Definition bufferLength (b : AudioBuffer) : Z :=
  Z.of_nat (List.length (samples b)) / Zpos (numberOfChannels b).

Definition duration (b : AudioBuffer) : Q :=
  bufferLength b # sampleRate b.

(** [LiveServerMessage], restricted to the fields [onmessage] reads.  Every
    optional field is an [option]; optional chaining is [option] bind. *)
Record InlineData : Type := mkInlineData
  { data : option string }.

Record Part : Type := mkPart
  { inlineData : option InlineData }.

Record Content : Type := mkContent
  { parts : option (list Part) }.

Record ServerContent : Type := mkServerContent
  { modelTurn : option Content;
    interrupted : option bool }.

Record LiveServerMessage : Type := mkMessage
  { serverContent : option ServerContent }.

Definition opt_bind {A B : Type} (o : option A) (f : A -> option B) : option B :=
  match o with
  | Some a => f a
  | None => None
  end.

(** [message.serverContent?.modelTurn?.parts?.[0]?.inlineData?.data] *)
Definition base64Audio (message : LiveServerMessage) : option string :=
  opt_bind (serverContent message) (fun sc =>
  opt_bind (modelTurn sc) (fun mt =>
  opt_bind (parts mt) (fun ps =>
  opt_bind (nth_error ps 0) (fun p =>
  opt_bind (inlineData p) (fun d => data d))))).

(** JavaScript truthiness of an optional string: present and not empty. *)
Definition truthy_string (o : option string) : bool :=
  match o with
  | Some EmptyString => false
  | Some _ => true
  | None => false
  end.

(** [message.serverContent?.interrupted], as a condition. *)
Definition isInterrupted (message : LiveServerMessage) : bool :=
  match opt_bind (serverContent message) interrupted with
  | Some b => b
  | None => false
  end.

(** Where a node is connected to. *)
Inductive Target : Type :=
| ToNode (node : nat)
| ToDestination (ctx : nat).

(** Calls that leave the component, in the order they are made. *)
Inductive Effect : Type :=
| ConsoleLog (msg : string)
| ConsoleError (msg : string)
| ContextNew (ctx : AudioContext)
| LiveConnect
| SessionClose (session : nat)
| TrackStop (track : nat)
| NodeConnect (node : nat) (target : Target)
| NodeDisconnect (node : nat)
| ContextClose (ctx : nat)
| SourceStart (source : nat) (buffer : AudioBuffer) (when : Q)
| SourceStop (source : nat).

Inductive Exn : Type :=
| CallFailed (call : Effect)
| MediaError
| DecodeError
| FormatError.

(** The component: React state, refs, the object allocator and the record of
    outside calls. *)
Record World : Type := mkWorld
  { isActive : bool;
    status : Status;
    errorMessage : option string;
    inputContextRef : option AudioContext;
    outputContextRef : option AudioContext;
    streamRef : option MediaStream;
    sourceRef : option nat;
    processorRef : option nat;
    nextStartTimeRef : Q;
    scheduledSourcesRef : list nat;
    sessionRef : option nat;
    nextId : nat;
    effects : list Effect }.

Definition initial : World :=
  {| isActive := false;
     status := Disconnected;
     errorMessage := None;
     inputContextRef := None;
     outputContextRef := None;
     streamRef := None;
     sourceRef := None;
     processorRef := None;
     nextStartTimeRef := 0%Q;
     scheduledSourcesRef := [];
     sessionRef := None;
     nextId := 0%nat;
     effects := [] |}.

Definition with_isActive (v : bool) (w : World) : World :=
  mkWorld v (status w) (errorMessage w) (inputContextRef w) (outputContextRef w)
    (streamRef w) (sourceRef w) (processorRef w) (nextStartTimeRef w)
    (scheduledSourcesRef w) (sessionRef w) (nextId w) (effects w).

Definition with_status (v : Status) (w : World) : World :=
  mkWorld (isActive w) v (errorMessage w) (inputContextRef w) (outputContextRef w)
    (streamRef w) (sourceRef w) (processorRef w) (nextStartTimeRef w)
    (scheduledSourcesRef w) (sessionRef w) (nextId w) (effects w).

Definition with_errorMessage (v : option string) (w : World) : World :=
  mkWorld (isActive w) (status w) v (inputContextRef w) (outputContextRef w)
    (streamRef w) (sourceRef w) (processorRef w) (nextStartTimeRef w)
    (scheduledSourcesRef w) (sessionRef w) (nextId w) (effects w).

Definition with_inputContextRef (v : option AudioContext) (w : World) : World :=
  mkWorld (isActive w) (status w) (errorMessage w) v (outputContextRef w)
    (streamRef w) (sourceRef w) (processorRef w) (nextStartTimeRef w)
    (scheduledSourcesRef w) (sessionRef w) (nextId w) (effects w).

Definition with_outputContextRef (v : option AudioContext) (w : World) : World :=
  mkWorld (isActive w) (status w) (errorMessage w) (inputContextRef w) v
    (streamRef w) (sourceRef w) (processorRef w) (nextStartTimeRef w)
    (scheduledSourcesRef w) (sessionRef w) (nextId w) (effects w).

Definition with_streamRef (v : option MediaStream) (w : World) : World :=
  mkWorld (isActive w) (status w) (errorMessage w) (inputContextRef w)
    (outputContextRef w) v (sourceRef w) (processorRef w) (nextStartTimeRef w)
    (scheduledSourcesRef w) (sessionRef w) (nextId w) (effects w).

Definition with_sourceRef (v : option nat) (w : World) : World :=
  mkWorld (isActive w) (status w) (errorMessage w) (inputContextRef w)
    (outputContextRef w) (streamRef w) v (processorRef w) (nextStartTimeRef w)
    (scheduledSourcesRef w) (sessionRef w) (nextId w) (effects w).

Definition with_processorRef (v : option nat) (w : World) : World :=
  mkWorld (isActive w) (status w) (errorMessage w) (inputContextRef w)
    (outputContextRef w) (streamRef w) (sourceRef w) v (nextStartTimeRef w)
    (scheduledSourcesRef w) (sessionRef w) (nextId w) (effects w).

Definition with_nextStartTimeRef (v : Q) (w : World) : World :=
  mkWorld (isActive w) (status w) (errorMessage w) (inputContextRef w)
    (outputContextRef w) (streamRef w) (sourceRef w) (processorRef w) v
    (scheduledSourcesRef w) (sessionRef w) (nextId w) (effects w).

Definition with_scheduledSourcesRef (v : list nat) (w : World) : World :=
  mkWorld (isActive w) (status w) (errorMessage w) (inputContextRef w)
    (outputContextRef w) (streamRef w) (sourceRef w) (processorRef w)
    (nextStartTimeRef w) v (sessionRef w) (nextId w) (effects w).

Definition with_sessionRef (v : option nat) (w : World) : World :=
  mkWorld (isActive w) (status w) (errorMessage w) (inputContextRef w)
    (outputContextRef w) (streamRef w) (sourceRef w) (processorRef w)
    (nextStartTimeRef w) (scheduledSourcesRef w) v (nextId w) (effects w).

Definition with_nextId (v : nat) (w : World) : World :=
  mkWorld (isActive w) (status w) (errorMessage w) (inputContextRef w)
    (outputContextRef w) (streamRef w) (sourceRef w) (processorRef w)
    (nextStartTimeRef w) (scheduledSourcesRef w) (sessionRef w) v (effects w).

Definition with_effects (v : list Effect) (w : World) : World :=
  mkWorld (isActive w) (status w) (errorMessage w) (inputContextRef w)
    (outputContextRef w) (streamRef w) (sourceRef w) (processorRef w)
    (nextStartTimeRef w) (scheduledSourcesRef w) (sessionRef w) (nextId w) v.

(* ================================================================== *)
(** ** The handler monad *)
(* ================================================================== *)

Inductive Completion (A : Type) : Type :=
| Normal (a : A)
| Throw (e : Exn).

Arguments Normal {A} a.
Arguments Throw {A} e.

Definition M (A : Type) : Type := World -> Completion A * World.

Definition ret {A : Type} (a : A) : M A := fun w => (Normal a, w).

Definition throw {A : Type} (e : Exn) : M A := fun w => (Throw e, w).

Definition bind {A B : Type} (m : M A) (k : A -> M B) : M B :=
  fun w =>
    match m w with
    | (Normal a, w') => k a w'
    | (Throw e, w') => (Throw e, w')
    end.

(** [try { body } catch (e) { handler }] *)
Definition try_catch {A : Type} (body : M A) (handler : Exn -> M A) : M A :=
  fun w =>
    match body w with
    | (Normal a, w') => (Normal a, w')
    | (Throw e, w') => handler e w'
    end.

Definition read {A : Type} (f : World -> A) : M A := fun w => (Normal (f w), w).

Definition write (f : World -> World) : M unit := fun w => (Normal tt, f w).

Declare Scope monad_scope.
Delimit Scope monad_scope with monad.
Notation "x <- m ;; k" := (bind m (fun x => k))
  (at level 61, m at next level, right associativity) : monad_scope.
Notation "m ;; k" := (bind m (fun _ => k))
  (at level 61, right associativity) : monad_scope.
Open Scope monad_scope.

(** [xs.forEach(f)] *)
Fixpoint forEach {A : Type} (xs : list A) (f : A -> M unit) : M unit :=
  match xs with
  | [] => ret tt
  | x :: rest => f x ;; forEach rest f
  end.

(** [if (ref.current) { ... }] *)
Definition when_some {A : Type} (o : option A) (f : A -> M unit) : M unit :=
  match o with
  | Some a => f a
  | None => ret tt
  end.

(** A call that cannot throw: it is recorded. *)
Definition emit (e : Effect) : M unit :=
  write (fun w => with_effects (effects w ++ [e]) w).

Definition console_log (msg : string) : M unit := emit (ConsoleLog msg).
Definition console_error (msg : string) : M unit := emit (ConsoleError msg).

(** A fresh object identity. *)
Definition fresh : M nat :=
  fun w => (Normal (nextId w), with_nextId (S (nextId w)) w).

Definition setIsActive (v : bool) : M unit := write (with_isActive v).
Definition setStatus (v : Status) : M unit := write (with_status v).
Definition setErrorMessage (v : option string) : M unit := write (with_errorMessage v).

(** [Set.prototype.add] and [Set.prototype.delete] on an insertion-ordered
    set of identities. *)
Definition set_add (x : nat) (s : list nat) : list nat :=
  if existsb (Nat.eqb x) s then s else s ++ [x].

Definition set_delete (x : nat) (s : list nat) : list nat :=
  filter (fun y => negb (Nat.eqb x y)) s.

Definition Qltb (x y : Q) : bool :=
  (Qnum x * Zpos (Qden y) <? Qnum y * Zpos (Qden x))%Z.

(* ================================================================== *)
(** ** utils/audioUtils: sample codec and decoder *)
(* ================================================================== *)

(** Bytes are integers in [0, 256). *)
Definition bytes : Type := list Z.

Definition Qclamp (s : Q) : Q :=
  if Qltb s (-1 # 1) then (-1 # 1) else if Qltb 1 s then 1 else s.

(** Conversion of a number to an integer, rounding toward zero. *)
Definition Qtruncate (q : Q) : Z := Z.quot (Qnum q) (Zpos (Qden q)).

(** The nearest value a signed 16-bit integer can hold. *)
Definition toInt16 (v : Z) : Z := Z.max (-32768) (Z.min 32767 v).

Definition encodeSample (s : Q) : Z :=
  toInt16 (Qtruncate (Qclamp s * (32768 # 1))).

(** Two's complement, little-endian. *)
Definition int16_bytes (v : Z) : bytes :=
  let u := (v mod 65536)%Z in [(u mod 256)%Z; (u / 256)%Z].

Definition int16_of_bytes (lo hi : Z) : Z :=
  let u := (lo + 256 * hi)%Z in
  if (u <? 32768)%Z then u else (u - 65536)%Z.

(** Modelled from the spec: [encodeToPCM16] of the SampleCodec
    ([createPCM16Blob] of the absent [utils/audioUtils]).  The spec says:
    clamps each sample to [-1,1], scales to a 16-bit signed integer, writes
    little-endian.  The scale is the signed 16-bit range (32768, the divisor
    of the inverse mapping), the fraction is dropped, and the one product
    that exceeds the 16-bit range (sample 1) takes the largest 16-bit
    value. *)
Definition encodeToPCM16 (s : list Q) : bytes :=
  flat_map (fun x => int16_bytes (encodeSample x)) s.

(** Modelled from the spec: [decodeFromPCM16] of the SampleCodec (the absent
    [utils/audioUtils]): the inverse mapping, dividing by the signed 16-bit
    range. *)
Fixpoint decodeFromPCM16 (b : bytes) : list Q :=
  match b with
  | lo :: hi :: rest => (int16_of_bytes lo hi # 32768) :: decodeFromPCM16 rest
  | _ => []
  end.

Definition b64_value (c : ascii) : option Z :=
  let n := Z.of_N (N_of_ascii c) in
  if ((65 <=? n) && (n <=? 90))%Z then Some (n - 65)%Z
  else if ((97 <=? n) && (n <=? 122))%Z then Some (n - 71)%Z
  else if ((48 <=? n) && (n <=? 57))%Z then Some (n + 4)%Z
  else if (n =? 43)%Z then Some 62%Z
  else if (n =? 47)%Z then Some 63%Z
  else None.

Definition is_pad (c : ascii) : bool := Ascii.eqb c "="%char.

(** One group of four characters; padding is accepted in the last group
    only. *)
Definition b64_group (last : bool) (a b c d : ascii) : option bytes :=
  opt_bind (b64_value a) (fun va =>
  opt_bind (b64_value b) (fun vb =>
  let b0 := (va * 4 + vb / 16)%Z in
  if last && is_pad c && is_pad d then Some [b0]
  else
    opt_bind (b64_value c) (fun vc =>
    let b1 := ((vb mod 16) * 16 + vc / 4)%Z in
    if last && is_pad d then Some [b0; b1]
    else
      opt_bind (b64_value d) (fun vd =>
      Some [b0; b1; ((vc mod 4) * 64 + vd)%Z])))).

Fixpoint b64_decode (cs : list ascii) : option bytes :=
  match cs with
  | [] => Some []
  | a :: b :: c :: d :: rest =>
      match rest with
      | [] => b64_group true a b c d
      | _ :: _ =>
          opt_bind (b64_group false a b c d) (fun g =>
          opt_bind (b64_decode rest) (fun r => Some (g ++ r)))
      end
  | _ => None
  end.

(** Modelled from the spec: [fromTransportText] of the SampleCodec
    ([base64ToUint8Array] of the absent [utils/audioUtils]): the standard
    text-to-binary mapping, failing with [DecodeError] on malformed input. *)
Definition base64ToUint8Array (base64 : string) : Exn + bytes :=
  match b64_decode (list_ascii_of_string base64) with
  | Some b => inr b
  | None => inl DecodeError
  end.

(** Modelled from the spec: [buildPlaybackBuffer] of the AudioDecoder
    ([decodeAudioData] of the absent [utils/audioUtils]): interleaved 16-bit
    PCM converted by [decodeFromPCM16] and packaged with the declared rate
    and channel count; [FormatError] when the byte length is not a multiple
    of [2 * channels]. *)
Definition decodeAudioData (uint8 : bytes) (rate numChannels : positive)
  : Exn + AudioBuffer :=
  if (Z.of_nat (List.length uint8) mod (2 * Zpos numChannels) =? 0)%Z
  then inr (mkAudioBuffer numChannels rate (decodeFromPCM16 uint8))
  else inl FormatError.

(** The two steps the handler performs on a payload, in its order. *)
Definition decodePayload (base64 : string) : Exn + AudioBuffer :=
  match base64ToUint8Array base64 with
  | inl e => inl e
  | inr uint8 => decodeAudioData uint8 24000 1
  end.

(* ================================================================== *)
(** ** The component's handlers *)
(* ================================================================== *)

Section Handlers.

(** Which outside calls throw: the oracle is asked by every call of the
    teardown, by the creation of an audio context and by the connect; the
    other calls are only recorded. *)
Variable raises : Effect -> bool.

Definition call (e : Effect) : M unit :=
  fun w =>
    if raises e then (Throw (CallFailed e), w)
    else (Normal tt, with_effects (effects w ++ [e]) w).

Definition lift {A : Type} (r : Exn + A) : M A :=
  match r with
  | inl e => throw e
  | inr a => ret a
  end.

(** *** stopSession (lines 29-76) *)

(** 1. Close API Session *)
Definition closeApiSession : M unit :=
  s <- read sessionRef ;;
  when_some s (fun session =>
    try_catch (call (SessionClose session))
              (fun _ => console_error "Error closing session") ;;
    write (with_sessionRef None)).

(** 2. Stop Microphone Stream *)
Definition stopMicrophoneStream : M unit :=
  s <- read streamRef ;;
  when_some s (fun stream =>
    forEach (getTracks stream) (fun track => call (TrackStop track)) ;;
    write (with_streamRef None)).

(** 3. Disconnect Input Nodes *)
Definition disconnectInputNodes : M unit :=
  s <- read sourceRef ;;
  when_some s (fun source =>
    call (NodeDisconnect source) ;;
    write (with_sourceRef None)) ;;
  p <- read processorRef ;;
  when_some p (fun processor =>
    call (NodeDisconnect processor) ;;
    write (with_processorRef None)) ;;
  c <- read inputContextRef ;;
  when_some c (fun ctx =>
    call (ContextClose (ctxId ctx)) ;;
    write (with_inputContextRef None)).

(** The loop shared by step 4 of [stopSession] and the interruption branch
    of [onmessage]: stop every scheduled source, ignoring a throw, then
    clear the set. *)
Definition stopScheduledSources : M unit :=
  srcs <- read scheduledSourcesRef ;;
  forEach srcs (fun source =>
    try_catch (call (SourceStop source)) (fun _ => ret tt)) ;;
  write (with_scheduledSourcesRef []).

(** 4. Stop Output Audio *)
Definition stopOutputAudio : M unit :=
  stopScheduledSources ;;
  c <- read outputContextRef ;;
  when_some c (fun ctx =>
    call (ContextClose (ctxId ctx)) ;;
    write (with_outputContextRef None)).

Definition stopSession : M unit :=
  closeApiSession ;;
  stopMicrophoneStream ;;
  disconnectInputNodes ;;
  stopOutputAudio ;;
  setIsActive false ;;
  setStatus Disconnected ;;
  write (with_nextStartTimeRef 0%Q).

(** *** startSession (lines 78-205)

    The function suspends once, at [await getUserMedia]; the part before
    is [startSession], the part after is [startSession_resume], and the
    two [sessionPromise] reactions are handlers of their own. *)

Definition newAudioContext (rate : Z) : M AudioContext :=
  id <- fresh ;;
  let ctx := mkAudioContext id rate in
  call (ContextNew ctx) ;;
  ret ctx.

(** The [catch] of lines 200-204. *)
Definition startSession_catch : M unit :=
  console_error "Failed to start session:" ;;
  setErrorMessage (Some "Microphone access denied or API unavailable."%string) ;;
  setStatus Error.

Definition startSession : M unit :=
  setErrorMessage None ;;
  setStatus Connecting ;;
  try_catch
    (inputCtx <- newAudioContext 16000 ;;
     outputCtx <- newAudioContext 24000 ;;
     write (with_inputContextRef (Some inputCtx)) ;;
     write (with_outputContextRef (Some outputCtx)))
    (fun _ => startSession_catch).

(** After [await navigator.mediaDevices.getUserMedia]: [granted] is the
    stream, or [None] when the promise rejects. *)
Definition startSession_resume (granted : option MediaStream) : M unit :=
  try_catch
    (stream <- lift (match granted with
                     | Some s => inr s
                     | None => inl MediaError
                     end) ;;
     write (with_streamRef (Some stream)) ;;
     call LiveConnect)
    (fun _ => startSession_catch).

(** [sessionPromise.then(session => ...)] *)
Definition sessionPromise_then (session : nat) : M unit :=
  write (with_sessionRef (Some session)).

(** [sessionPromise.catch(err => ...)] *)
Definition sessionPromise_catch : M unit :=
  console_error "Connection failed" ;;
  setErrorMessage (Some "Failed to connect to Gemini Live."%string) ;;
  setStatus Error.

(** [callbacks.onopen]; [inputCtx] and [stream] are the constants of the
    [startSession] activation that created the callback. *)
Definition onopen (inputCtx : AudioContext) (stream : MediaStream) : M unit :=
  console_log "Live session opened" ;;
  setStatus Connected ;;
  setIsActive true ;;
  source <- fresh ;;
  processor <- fresh ;;
  write (with_sourceRef (Some source)) ;;
  write (with_processorRef (Some processor)) ;;
  emit (NodeConnect source (ToNode processor)) ;;
  emit (NodeConnect processor (ToDestination (ctxId inputCtx))).

(** Lines 143-159: create the source for a decoded buffer, schedule it and
    register it.  [currentTime] is [outputCtx.currentTime]. *)
Definition enqueue (outputCtx : AudioContext) (currentTime : Q)
    (audioBuffer : AudioBuffer) : M unit :=
  source <- fresh ;;
  emit (NodeConnect source (ToDestination (ctxId outputCtx))) ;;
  next <- read nextStartTimeRef ;;
  (if Qltb next currentTime
   then write (with_nextStartTimeRef currentTime)
   else ret tt) ;;
  next <- read nextStartTimeRef ;;
  emit (SourceStart source audioBuffer next) ;;
  write (with_nextStartTimeRef (next + duration audioBuffer)%Q) ;;
  write (fun w => with_scheduledSourcesRef (set_add source (scheduledSourcesRef w)) w).

(** Lines 166-173. *)
Definition interrupt : M unit :=
  console_log "Interrupted!" ;;
  stopScheduledSources ;;
  write (with_nextStartTimeRef 0%Q).

(** [callbacks.onmessage]; [currentTime] is the reading of the output
    clock the handler takes (line 148).  The one [await] of the handler is
    on [decodeAudioData], a computation on the payload that waits for
    nothing outside: its continuation runs before the event loop delivers
    the next event, so the handler is one step.  Everything inside the
    [try] that can throw is the decode; creating, connecting and starting a
    fresh source do not. *)
Definition onmessage (currentTime : Q) (message : LiveServerMessage) : M unit :=
  c <- read outputContextRef ;;
  match c with
  | None => ret tt
  | Some outputCtx =>
      (if truthy_string (base64Audio message)
       then
         try_catch
           (audioBuffer <- lift (decodePayload
                                   (match base64Audio message with
                                    | Some s => s
                                    | None => EmptyString
                                    end)) ;;
            enqueue outputCtx currentTime audioBuffer)
           (fun _ => console_error "Error decoding audio")
       else ret tt) ;;
      (if isInterrupted message then interrupt else ret tt)
  end.

(** [source.onended] *)
Definition onended (source : nat) : M unit :=
  write (fun w => with_scheduledSourcesRef (set_delete source (scheduledSourcesRef w)) w).

(** [callbacks.onclose] *)
Definition onclose : M unit :=
  console_log "Live session closed" ;;
  stopSession.

(** [callbacks.onerror] *)
Definition onerror : M unit :=
  console_error "Live session error" ;;
  setErrorMessage (Some "Connection error occurred."%string) ;;
  stopSession ;;
  setStatus Error.

(** The button: [disabled={status === 'connecting'}],
    [onClick={isActive ? stopSession : startSession}]. *)
Definition button_onClick : M unit :=
  s <- read status ;;
  if Status_eqb s Connecting then ret tt
  else
    a <- read isActive ;;
    if a then stopSession else startSession.

(** *** Events

    What the event loop can deliver to the component. *)
Inductive Event : Type :=
| Click
| MediaResult (granted : option MediaStream)
| ConnectResolved (session : nat)
| ConnectRejected
| Open (inputCtx : AudioContext) (stream : MediaStream)
| Message (currentTime : Q) (message : LiveServerMessage)
| Closed
| Failed
| Ended (source : nat)
| Unmount.

Definition handler (ev : Event) : M unit :=
  match ev with
  | Click => button_onClick
  | MediaResult granted => startSession_resume granted
  | ConnectResolved session => sessionPromise_then session
  | ConnectRejected => sessionPromise_catch
  | Open inputCtx stream => onopen inputCtx stream
  | Message currentTime message => onmessage currentTime message
  | Closed => onclose
  | Failed => onerror
  | Ended source => onended source
  | Unmount => stopSession
  end.

(** A handler runs to its end or to an uncaught throw; either way the
    component is left as the handler left it. *)
Definition step (w : World) (ev : Event) : World := snd (handler ev w).

Definition run (evs : list Event) (w : World) : World := fold_left step evs w.

End Handlers.

(* ================================================================== *)
(** ** Observations on a run *)
(* ================================================================== *)

(** The playback starts among the recorded calls: buffer and start time, in
    call order. *)
Fixpoint started (es : list Effect) : list (AudioBuffer * Q) :=
  match es with
  | [] => []
  | SourceStart _ b t :: rest => (b, t) :: started rest
  | _ :: rest => started rest
  end.

(** The start time line 149-153 chooses: the later of the clock reading and
    the cursor. *)
Definition startAt (currentTime next : Q) : Q :=
  if Qltb next currentTime then currentTime else next.

(** What the guarded stop loop records for a set of sources: one stop per
    source whose [stop()] does not throw. *)
Definition stop_effects (raises : Effect -> bool) (srcs : list nat) : list Effect :=
  map SourceStop (filter (fun s => negb (raises (SourceStop s))) srcs).

(** The release calls [stopSession] makes without a [try]. *)
Definition unguarded_release (e : Effect) : bool :=
  match e with
  | TrackStop _ | NodeDisconnect _ | ContextClose _ => true
  | _ => false
  end.

(** The contract of the platform: stopping a track, disconnecting a node and
    closing a context do not throw. *)
Definition release_total (raises : Effect -> bool) : Prop :=
  forall e, unguarded_release e = true -> raises e = false.

Definition opt_list {A B : Type} (o : option A) (f : A -> list B) : list B :=
  match o with
  | Some a => f a
  | None => []
  end.

(** The calls of a teardown that runs to its end, in order. *)
Definition teardown_effects (raises : Effect -> bool) (w : World) : list Effect :=
  opt_list (sessionRef w) (fun s =>
    [if raises (SessionClose s)
     then ConsoleError "Error closing session"
     else SessionClose s])
  ++ opt_list (streamRef w) (fun st => map TrackStop (getTracks st))
  ++ opt_list (sourceRef w) (fun n => [NodeDisconnect n])
  ++ opt_list (processorRef w) (fun n => [NodeDisconnect n])
  ++ opt_list (inputContextRef w) (fun c => [ContextClose (ctxId c)])
  ++ stop_effects raises (scheduledSourcesRef w)
  ++ opt_list (outputContextRef w) (fun c => [ContextClose (ctxId c)]).

(** The component after a teardown that ran to its end. *)
Definition torn_down (raises : Effect -> bool) (w : World) : World :=
  {| isActive := false;
     status := Disconnected;
     errorMessage := errorMessage w;
     inputContextRef := None;
     outputContextRef := None;
     streamRef := None;
     sourceRef := None;
     processorRef := None;
     nextStartTimeRef := 0%Q;
     scheduledSourcesRef := [];
     sessionRef := None;
     nextId := nextId w;
     effects := effects w ++ teardown_effects raises w |}.

(** Without an output context nothing is scheduled and the cursor is at
    zero. *)
Definition idle_when_closed (w : World) : Prop :=
  outputContextRef w = None ->
  scheduledSourcesRef w = [] /\ nextStartTimeRef w = 0%Q.

(** The buffers a sequence of messages carries, in order: one for every
    payload that is present, not empty and decodes. *)
Fixpoint payload_buffers (msgs : list (Q * LiveServerMessage)) : list AudioBuffer :=
  match msgs with
  | [] => []
  | (_, m) :: rest =>
      match base64Audio m with
      | Some (String c s) =>
          match decodePayload (String c s) with
          | inr b => b :: payload_buffers rest
          | inl _ => payload_buffers rest
          end
      | _ => payload_buffers rest
      end
  end.

(** A message without its audio part. *)
Definition without_audio (m : LiveServerMessage) : LiveServerMessage :=
  mkMessage (Some (mkServerContent None (Some (isInterrupted m)))).

(** The component after [if (ref.current) { release; ref.current = null }]
    when the release call does not throw. *)
Definition released {A : Type} (o : option A) (e : A -> Effect)
    (clear : World -> World) (w : World) : World :=
  match o with
  | None => w
  | Some a => clear (with_effects (effects w ++ [e a]) w)
  end.

(** The component after lines 143-159 have run for [audioBuffer]. *)
Definition enqueued (outputCtx : AudioContext) (currentTime : Q)
    (audioBuffer : AudioBuffer) (w : World) : World :=
  let source := nextId w in
  let start := startAt currentTime (nextStartTimeRef w) in
  with_scheduledSourcesRef (set_add source (scheduledSourcesRef w))
    (with_nextStartTimeRef (start + duration audioBuffer)%Q
       (with_effects
          (effects w ++ [NodeConnect source (ToDestination (ctxId outputCtx));
                         SourceStart source audioBuffer start])
          (with_nextId (S source) w))).

(** The component after the audio part of [onmessage] (lines 137-163). *)
Definition audio_handled (outputCtx : AudioContext) (currentTime : Q)
    (message : LiveServerMessage) (w : World) : World :=
  match base64Audio message with
  | Some (String c s) =>
      match decodePayload (String c s) with
      | inr audioBuffer => enqueued outputCtx currentTime audioBuffer w
      | inl _ => with_effects (effects w ++ [ConsoleError "Error decoding audio"]) w
      end
  | _ => w
  end.

(** The component after the interruption part (lines 166-173). *)
Definition interrupt_handled (raises : Effect -> bool) (w : World) : World :=
  with_nextStartTimeRef 0%Q
    (with_scheduledSourcesRef []
       (with_effects
          (effects w ++ ConsoleLog "Interrupted!"
                        :: stop_effects raises (scheduledSourcesRef w)) w)).

(** The events that deliver a sequence of messages, each with the clock
    reading its handler takes. *)
Definition deliveries (msgs : list (Q * LiveServerMessage)) : list Event :=
  map (fun p => Message (fst p) (snd p)) msgs.

(** *** A concrete session, for examples *)

Definition no_raise : Effect -> bool := fun _ => false.

Definition mic : MediaStream := mkMediaStream 100 [101%nat].

Definition audio_message (payload : string) (flag : option bool) : LiveServerMessage :=
  mkMessage (Some (mkServerContent
    (Some (mkContent (Some [mkPart (Some (mkInlineData (Some payload)))])))
    flag)).

(** Two samples, 0.5 and -0.5: the bytes 00 40 00 C0. *)
Definition chunk : string := "AEAAwA==".

(** Not base64. *)
Definition bad_chunk : string := "!".

(** Start clicked, microphone granted, session resolved and opened. *)
Definition connected_events : list Event :=
  [Click; MediaResult (Some mic); ConnectResolved 200;
   Open (mkAudioContext 0 16000) mic].

Definition live (raises : Effect -> bool) : World :=
  run raises connected_events initial.

(** Start clicked, microphone granted, then the session promise rejects. *)
Definition connect_failed_events : list Event :=
  [Click; MediaResult (Some mic); ConnectRejected].

(** Start clicked, microphone granted, then the [onerror] callback fires. *)
Definition connect_error_events : list Event :=
  [Click; MediaResult (Some mic); Failed].

(** Oracles under which one kind of call throws. *)
Definition track_stop_raises (e : Effect) : bool :=
  match e with
  | TrackStop _ => true
  | _ => false
  end.

Definition connect_raises (e : Effect) : bool :=
  match e with
  | LiveConnect => true
  | _ => false
  end.

Definition source_stop_raises (e : Effect) : bool :=
  match e with
  | SourceStop _ => true
  | _ => false
  end.

(** [m] leaves the property [P] standing, whether it returns or throws. *)
Definition preserves {A : Type} (P : World -> Prop) (m : M A) : Prop :=
  forall w, P w -> P (snd (m w)).

(** *** Further observations on the session *)



(** Every source in the scheduled set is there once, was created by the
    component and has been started. *)
Definition sources_started (w : World) : Prop :=
  NoDup (scheduledSourcesRef w)
  /\ forall s, In s (scheduledSourcesRef w) ->
       (s < nextId w)%nat
       /\ exists b t, In (SourceStart s b t) (effects w).

(** The cursor and every start time so far are not negative. *)
Definition starts_nonneg (w : World) : Prop :=
  (0 <= nextStartTimeRef w)%Q
  /\ forall s b t, In (SourceStart s b t) (effects w) -> (0 <= t)%Q.

(** The component holds no session, stream, node or context and has nothing
    scheduled. *)
Definition holds_nothing (w : World) : Prop :=
  sessionRef w = None /\ streamRef w = None /\ sourceRef w = None
  /\ processorRef w = None /\ inputContextRef w = None
  /\ outputContextRef w = None /\ scheduledSourcesRef w = [].

(** Oracles under which the start-up calls succeed. *)
Definition startup_total (raises : Effect -> bool) : Prop :=
  (forall c, raises (ContextNew c) = false) /\ raises LiveConnect = false.

(* ================================================================== *)
(** ** services/geminiService, ImageGenView and ChatView *)
(* ================================================================== *)

(** A JavaScript string: its sequence of UTF-16 code units. *)
Definition jsstring : Type := list N.

Definition js (s : string) : jsstring := map N_of_ascii (list_ascii_of_string s).

(** Truthiness of a string and of an optional string. *)
Definition nonempty (s : jsstring) : bool :=
  match s with
  | [] => false
  | _ :: _ => true
  end.

Definition truthy (o : option jsstring) : bool :=
  match o with
  | Some s => nonempty s
  | None => false
  end.

(** [a || b] on optional strings with a string default. *)
Definition or_default (o : option jsstring) (d : jsstring) : jsstring :=
  match o with
  | Some (c :: s) => c :: s
  | _ => d
  end.

(** LineTerminator code units of ECMAScript: LF, CR, LS, PS. *)
Definition isLineTerminator (c : N) : bool :=
  ((c =? 10) || (c =? 13) || (c =? 8232) || (c =? 8233))%N.

(** WhiteSpace code units of ECMAScript: TAB, VT, FF, ZWNBSP and the space
    separators. *)
Definition isWhiteSpace (c : N) : bool :=
  ((c =? 9) || (c =? 11) || (c =? 12) || (c =? 65279)
   || (c =? 32) || (c =? 160) || (c =? 5760)
   || ((8192 <=? c) && (c <=? 8202))
   || (c =? 8239) || (c =? 8287) || (c =? 12288))%N.

(** [!s.trim()]: trimming leaves nothing exactly when every code unit is
    white space or a line terminator. *)
Definition blank (s : jsstring) : bool :=
  forallb (fun c => isWhiteSpace c || isLineTerminator c) s.

Module GenAI.

(** The parts of the SDK's types the service reads and writes. *)
Record Blob : Type := mkBlob
  { mimeType : option jsstring;
    data : option jsstring }.

Record Part : Type := mkPart
  { inlineData : option Blob;
    text : option jsstring }.

Record Content : Type := mkContent
  { parts : option (list Part) }.

Record Candidate : Type := mkCandidate
  { content : option Content }.

(** [text] of a response is the SDK's getter; its value is a field here. *)
Record GenerateContentResponse : Type := mkResponse
  { candidates : option (list Candidate);
    responseText : option jsstring }.

Inductive Contents : Type :=
| PromptOnly (prompt : jsstring)
| Parts (ps : list Part).

Inductive Model : Type :=
| TEXT_MODEL
| IMAGE_MODEL.

Record Request : Type := mkRequest
  { model : Model;
    contents : Contents;
    aspectRatio : option jsstring }.

(** What a call can throw: a failure of the SDK call, or the service's own
    [new Error("No image data found in response.")]. *)
Inductive Error : Type :=
| ApiError (code : nat)
| NoImageData.

(** [console.error(label, error)] *)
Record LogEntry : Type := mkLog
  { label : string;
    logged : Error }.

(** The result of an async service function: what it logged, and its value
    or the error it threw. *)
Definition Outcome (A : Type) : Type := list LogEntry * (Error + A).

(** [try { body } catch (error) { console.error(label, error); throw error; }] *)
Definition log_and_rethrow {A : Type} (lbl : string) (body : Error + A) : Outcome A :=
  match body with
  | inl e => ([mkLog lbl e], inl e)
  | inr a => ([], inr a)
  end.

(** The request [generateText] sends (lines 20-45 of the service);
    [mimeType] absent takes the default ['image/jpeg']. *)
Definition textRequest (prompt : jsstring) (base64Image mimeType : option jsstring)
  : Request :=
  let mime := match mimeType with
              | Some m => m
              | None => js "image/jpeg"
              end in
  mkRequest TEXT_MODEL
    (match base64Image with
     | Some (c :: s) =>
         Parts [mkPart (Some (mkBlob (Some mime) (Some (c :: s)))) None;
                mkPart None (Some prompt)]
     | _ => PromptOnly prompt
     end)
    None.

(** [generateText] after its await: [answer] is what
    [ai.models.generateContent] gave. *)
Definition generateText (answer : Error + GenerateContentResponse) : Outcome jsstring :=
  log_and_rethrow "Error generating text:"
    (match answer with
     | inl e => inl e
     | inr response =>
         inr (or_default (responseText response) (js "No response text generated."))
     end).

(** The request [generateImage] sends. *)
Definition imageRequest (prompt : jsstring) : Request :=
  mkRequest IMAGE_MODEL (Parts [mkPart None (Some prompt)]) (Some (js "1:1")).

(** The loop of lines 78-84: the data URI of the first part that has inline
    data. *)
Fixpoint firstImage (ps : list Part) : option jsstring :=
  match ps with
  | [] => None
  | part :: rest =>
      match inlineData part with
      | Some blob =>
          if truthy (data blob)
          then Some (js "data:" ++ or_default (mimeType blob) (js "image/png")
                     ++ js ";base64," ++ or_default (data blob) [])
          else firstImage rest
      | None => firstImage rest
      end
  end.

(** [response.candidates?.[0]?.content?.parts] *)
Definition firstCandidateParts (response : GenerateContentResponse)
  : option (list Part) :=
  opt_bind (candidates response) (fun cs =>
  opt_bind (nth_error cs 0) (fun c =>
  opt_bind (content c) (fun ct => parts ct))).

(** [generateImage] after its await. *)
Definition generateImage (answer : Error + GenerateContentResponse) : Outcome jsstring :=
  log_and_rethrow "Error generating image:"
    (match answer with
     | inl e => inl e
     | inr response =>
         match opt_bind (firstCandidateParts response) firstImage with
         | Some uri => inr uri
         | None => inl NoImageData
         end
     end).

End GenAI.

Module ImageGen.

Record GeneratedImage : Type := mkImage
  { url : jsstring;
    prompt : jsstring;
    timestamp : Z }.

(** The state of [ImageGenView]; [pending] is the suspended activation of
    [handleGenerate] with the prompt it captured, [console] what the
    service logged. *)
Record State : Type := mkState
  { promptInput : jsstring;
    isLoading : bool;
    history : list GeneratedImage;
    currentImage : option GeneratedImage;
    error : option jsstring;
    pending : option jsstring;
    console : list GenAI.LogEntry }.

Definition initial : State := mkState [] false [] None None None [].

(** [handleGenerate] up to its await. *)
Definition handleGenerate (s : State) : State :=
  if blank (promptInput s) || isLoading s then s
  else mkState (promptInput s) true (history s) (currentImage s) None
         (Some (promptInput s)) (console s).

(** [handleGenerate] after its await, for the activation that captured
    [captured]; [now] is [Date.now()]. *)
Definition handleGenerate_resume (captured : jsstring)
    (answer : GenAI.Error + GenAI.GenerateContentResponse) (now : Z) (s : State)
  : State :=
  let (logs, result) := GenAI.generateImage answer in
  match result with
  | inr base64Image =>
      let newImage := mkImage base64Image captured now in
      mkState (promptInput s) false (newImage :: history s) (Some newImage)
        (error s) None (console s ++ logs)
  | inl _ =>
      mkState (promptInput s) false (history s) (currentImage s)
        (Some (js "Failed to generate image. Please try a different prompt or try again later."))
        None (console s ++ logs)
  end.

Inductive Event : Type :=
| SetPrompt (value : jsstring)
| Generate
| Answered (answer : GenAI.Error + GenAI.GenerateContentResponse) (now : Z)
| Select (index : nat).

Definition step (s : State) (ev : Event) : State :=
  match ev with
  | SetPrompt value =>
      mkState value (isLoading s) (history s) (currentImage s) (error s)
        (pending s) (console s)
  | Generate => handleGenerate s
  | Answered answer now =>
      match pending s with
      | Some captured => handleGenerate_resume captured answer now s
      | None => s
      end
  | Select index =>
      match nth_error (history s) index with
      | Some img =>
          mkState (promptInput s) (isLoading s) (history s) (Some img) (error s)
            (pending s) (console s)
      | None => s
      end
  end.

Definition run (evs : list Event) (s : State) : State := fold_left step evs s.

End ImageGen.

Module Chat.

Inductive Role : Type :=
| User
| Model.

(** A message id: ['welcome'], or the decimal string of a number. *)
Inductive MsgId : Type :=
| Welcome
| Millis (t : Z).

Record ChatMessage : Type := mkMsg
  { id : MsgId;
    role : Role;
    text : jsstring;
    image : option jsstring;
    timestamp : Z;
    isError : bool }.

(** The state of [ChatView]; [pending] is the suspended activation of
    [handleSendMessage] with the message it built. *)
Record State : Type := mkState
  { messages : list ChatMessage;
    inputValue : jsstring;
    selectedImage : option jsstring;
    isLoading : bool;
    pending : option ChatMessage;
    console : list GenAI.LogEntry }.

Definition welcome_text : jsstring :=
  js "Hello! I'm Gemini. I can help you with writing, analysis, or understanding images. How can I assist you today?".

Definition initial (mounted : Z) : State :=
  mkState [mkMsg Welcome Model welcome_text None mounted false] [] None false None [].

Definition marker : jsstring := js ";base64,".

Fixpoint starts_with (p s : jsstring) : option jsstring :=
  match p, s with
  | [], _ => Some s
  | a :: p', b :: s' => if (a =? b)%N then starts_with p' s' else None
  | _ :: _, [] => None
  end.

(** The greedy split of [/(.+);base64,(.+)$/] on a string without line
    terminators: the first group is as long as it can be, so of all the
    places where the marker stands with something before and something
    after, the last one is taken.  [before] is what has been passed,
    reversed. *)
Fixpoint greedy_split (before : jsstring) (s : jsstring)
  : option (jsstring * jsstring) :=
  match s with
  | [] => None
  | c :: rest =>
      match greedy_split (c :: before) rest with
      | Some r => Some r
      | None =>
          match starts_with marker (c :: rest) with
          | Some (d :: after) =>
              if nonempty before then Some (rev before, d :: after) else None
          | _ => None
          end
      end
  end.

(** [image.match(/^data:(.+);base64,(.+)$/)]: the two groups.  A dot
    matches any code unit but a line terminator, and the pattern spans the
    whole string. *)
Definition matchDataUri (image : jsstring) : option (jsstring * jsstring) :=
  match starts_with (js "data:") image with
  | Some rest =>
      if existsb isLineTerminator rest then None else greedy_split [] rest
  | None => None
  end.

(** The request a user message leads to (lines 60-72). *)
Definition chatRequest (m : ChatMessage) : GenAI.Request :=
  match opt_bind (image m) matchDataUri with
  | Some (mimeType, base64Data) =>
      GenAI.textRequest (text m) (Some base64Data) (Some mimeType)
  | None => GenAI.textRequest (text m) None None
  end.

(** [handleSendMessage] up to its await; [now_id] and [now_ts] are the two
    readings of [Date.now()]. *)
Definition handleSendMessage (now_id now_ts : Z) (s : State) : State :=
  if (blank (inputValue s) && negb (truthy (selectedImage s))) || isLoading s
  then s
  else
    let newUserMsg :=
      mkMsg (Millis now_id) User (inputValue s)
        (if truthy (selectedImage s) then selectedImage s else None)
        now_ts false in
    mkState (messages s ++ [newUserMsg]) [] None true (Some newUserMsg) (console s).

(** [handleSendMessage] after its await. *)
Definition handleSendMessage_resume
    (answer : GenAI.Error + GenAI.GenerateContentResponse) (now_id now_ts : Z)
    (s : State) : State :=
  let (logs, result) := GenAI.generateText answer in
  let reply :=
    match result with
    | inr responseText => mkMsg (Millis (now_id + 1)) Model responseText None now_ts false
    | inl _ =>
        mkMsg (Millis (now_id + 1)) Model
          (js "I encountered an error processing your request. Please try again.")
          None now_ts true
    end in
  mkState (messages s ++ [reply]) (inputValue s) (selectedImage s) false None
    (console s ++ logs).

Inductive Event : Type :=
| SetInput (value : jsstring)
| ImageLoaded (result : jsstring)
| ClearImage
| Send (now_id now_ts : Z)
| Answered (answer : GenAI.Error + GenAI.GenerateContentResponse) (now_id now_ts : Z).

Definition step (s : State) (ev : Event) : State :=
  match ev with
  | SetInput value =>
      mkState (messages s) value (selectedImage s) (isLoading s) (pending s) (console s)
  | ImageLoaded result =>
      mkState (messages s) (inputValue s) (Some result) (isLoading s) (pending s)
        (console s)
  | ClearImage =>
      mkState (messages s) (inputValue s) None (isLoading s) (pending s) (console s)
  | Send now_id now_ts => handleSendMessage now_id now_ts s
  | Answered answer now_id now_ts =>
      match pending s with
      | Some _ => handleSendMessage_resume answer now_id now_ts s
      | None => s
      end
  end.

Definition run (evs : list Event) (s : State) : State := fold_left step evs s.

(** How the conversation reads: the welcome, then question and answer in
    turn, the last question unanswered while a request is out. *)
Fixpoint exchanges (roles : list Role) (loading : bool) : Prop :=
  match roles with
  | [] => loading = false
  | [User] => loading = true
  | User :: Model :: rest => exchanges rest loading
  | _ => False
  end.

End Chat.

(** *** Observations on the two views *)

(** What holds of [ImageGenView] at all times. *)
Definition imagegen_consistent (s : ImageGen.State) : Prop :=
  (ImageGen.isLoading s = true <-> ImageGen.pending s <> None)
  /\ (forall p, ImageGen.pending s = Some p -> blank p = false)
  /\ (forall img, ImageGen.currentImage s = Some img -> In img (ImageGen.history s))
  /\ Forall (fun img =>
       blank (ImageGen.prompt img) = false
       /\ exists rest, ImageGen.url img = js "data:" ++ rest)
       (ImageGen.history s).

(** Events of [ImageGenView] other than an answer and a history click. *)
Definition imagegen_waiting (ev : ImageGen.Event) : bool :=
  match ev with
  | ImageGen.SetPrompt _ | ImageGen.Generate => true
  | _ => false
  end.

(** What holds of [ChatView] at all times. *)
Definition chat_consistent (mounted : Z) (s : Chat.State) : Prop :=
  (exists rest,
     Chat.messages s
     = Chat.mkMsg Chat.Welcome Chat.Model Chat.welcome_text None mounted false :: rest
     /\ Chat.exchanges (map Chat.role rest) (Chat.isLoading s))
  /\ (Chat.isLoading s = true <-> Chat.pending s <> None)
  /\ (forall m, Chat.pending s = Some m ->
        exists front, Chat.messages s = front ++ [m]).

(** Events of [ChatView] other than an answer. *)
Definition chat_waiting (ev : Chat.Event) : bool :=
  match ev with
  | Chat.Answered _ _ _ => false
  | _ => true
  end.

(** The reply [handleSendMessage] appends for an answer of the service. *)
Definition chat_reply (answer : GenAI.Error + GenAI.GenerateContentResponse)
    (now_id now_ts : Z) : Chat.ChatMessage :=
  match snd (GenAI.generateText answer) with
  | inr t => Chat.mkMsg (Chat.Millis (now_id + 1)) Chat.Model t None now_ts false
  | inl _ =>
      Chat.mkMsg (Chat.Millis (now_id + 1)) Chat.Model
        (js "I encountered an error processing your request. Please try again.")
        None now_ts true
  end.

(* ================================================================== *)
(** ** Reasoning about handlers *)
(* ================================================================== *)

Lemma Qltb_lt (x y : Q) : Qltb x y = true <-> (x < y)%Q.
Proof. unfold Qltb, Qlt. apply Z.ltb_lt. Qed.

Lemma Qltb_ge (x y : Q) : Qltb x y = false <-> (y <= x)%Q.
Proof. unfold Qltb, Qle. apply Z.ltb_ge. Qed.

Lemma startAt_max (c n : Q) :
  (c <= startAt c n)%Q /\ (n <= startAt c n)%Q /\ (startAt c n = c \/ startAt c n = n).
Proof.
  unfold startAt. destruct (Qltb n c) eqn:E.
  - apply Qltb_lt in E. repeat split; [apply Qle_refl | apply Qlt_le_weak, E | now left].
  - apply Qltb_ge in E. repeat split; [exact E | apply Qle_refl | now right].
Qed.

Lemma started_app (a b : list Effect) : started (a ++ b) = started a ++ started b.
Proof.
  induction a as [|e a IH]; simpl; [reflexivity|].
  destruct e; simpl; rewrite ?IH; reflexivity.
Qed.

Lemma started_stop_effects raises srcs : started (stop_effects raises srcs) = [].
Proof.
  unfold stop_effects. induction srcs as [|s srcs IH]; simpl; [reflexivity|].
  destruct (raises (SourceStop s)); simpl; exact IH.
Qed.

Lemma with_effects_id (w : World) : with_effects (effects w) w = w.
Proof. destruct w; reflexivity. Qed.

Lemma with_effects_twice (a b : list Effect) (w : World) :
  with_effects b (with_effects a w) = with_effects b w.
Proof. reflexivity. Qed.

Section Logic.

Variable raises : Effect -> bool.

Lemma preserves_ret {A} P (a : A) : preserves P (ret a).
Proof. intros w H; exact H. Qed.

Lemma preserves_throw {A} P e : preserves P (@throw A e).
Proof. intros w H; exact H. Qed.

Lemma preserves_read {A} P (f : World -> A) : preserves P (read f).
Proof. intros w H; exact H. Qed.

Lemma preserves_lift {A} P (r : Exn + A) : preserves P (lift r).
Proof. destruct r; intros w H; exact H. Qed.

Lemma preserves_bind {A B} P (m : M A) (k : A -> M B) :
  preserves P m -> (forall a, preserves P (k a)) -> preserves P (bind m k).
Proof.
  intros Hm Hk w H. unfold bind. specialize (Hm w H).
  destruct (m w) as [[a|e] w']; simpl in *; [apply Hk|]; exact Hm.
Qed.

Lemma preserves_try_catch {A} P (m : M A) (h : Exn -> M A) :
  preserves P m -> (forall e, preserves P (h e)) -> preserves P (try_catch m h).
Proof.
  intros Hm Hh w H. unfold try_catch. specialize (Hm w H).
  destruct (m w) as [[a|e] w']; simpl in *; [|apply Hh]; exact Hm.
Qed.

Lemma preserves_forEach {A} P (xs : list A) (f : A -> M unit) :
  (forall x, preserves P (f x)) -> preserves P (forEach xs f).
Proof.
  intros Hf. induction xs as [|x xs IH]; simpl.
  - apply preserves_ret.
  - apply preserves_bind; [apply Hf | intros _; exact IH].
Qed.

Lemma preserves_when_some {A} P (o : option A) (f : A -> M unit) :
  (forall a, preserves P (f a)) -> preserves P (when_some o f).
Proof. intros Hf. destruct o; simpl; [apply Hf | apply preserves_ret]. Qed.

Lemma preserves_if {A} P (b : bool) (m1 m2 : M A) :
  preserves P m1 -> preserves P m2 -> preserves P (if b then m1 else m2).
Proof. destruct b; auto. Qed.

Lemma preserves_write P (f : World -> World) :
  (forall w, P w -> P (f w)) -> preserves P (write f).
Proof. intros Hf w H. apply Hf, H. Qed.

Lemma preserves_emit P e :
  (forall w l, P w -> P (with_effects l w)) -> preserves P (emit e).
Proof. intros Hf w H. apply Hf, H. Qed.

Lemma preserves_call P e :
  (forall w l, P w -> P (with_effects l w)) -> preserves P (call raises e).
Proof.
  intros Hf w H. unfold call. destruct (raises e); simpl; [exact H | apply Hf, H].
Qed.

Lemma preserves_fresh P :
  (forall w n, P w -> P (with_nextId n w)) -> preserves P fresh.
Proof. intros Hf w H. apply Hf, H. Qed.

End Logic.

(* ================================================================== *)
(** ** Teardown *)
(* ================================================================== *)

Lemma bind_normal {A B} (m : M A) (k : A -> M B) w a w' :
  m w = (Normal a, w') -> bind m k w = k a w'.
Proof. intros H. unfold bind. rewrite H. reflexivity. Qed.

Section Teardown.

Variable raises : Effect -> bool.

Lemma forEach_stop_eq (srcs : list nat) (w : World) :
  forEach srcs (fun source =>
    try_catch (call raises (SourceStop source)) (fun _ => ret tt)) w
  = (Normal tt, with_effects (effects w ++ stop_effects raises srcs) w).
Proof.
  revert w. induction srcs as [|s srcs IH]; intros w.
  - simpl. unfold ret. rewrite app_nil_r, with_effects_id. reflexivity.
  - cbn [forEach]. unfold bind at 1, try_catch, call, stop_effects. cbn [filter].
    destruct (raises (SourceStop s)); cbn [negb].
    + unfold ret at 1. rewrite IH. reflexivity.
    + rewrite IH. cbn [effects with_effects map].
      rewrite with_effects_twice, <- app_assoc. reflexivity.
Qed.

Lemma stopScheduledSources_eq (w : World) :
  stopScheduledSources raises w
  = (Normal tt,
     with_scheduledSourcesRef []
       (with_effects (effects w ++ stop_effects raises (scheduledSourcesRef w)) w)).
Proof.
  unfold stopScheduledSources, bind, read. rewrite forEach_stop_eq. reflexivity.
Qed.

Lemma closeApiSession_eq (w : World) :
  closeApiSession raises w
  = (Normal tt,
     match sessionRef w with
     | None => w
     | Some s =>
         with_sessionRef None
           (with_effects
              (effects w ++ [if raises (SessionClose s)
                             then ConsoleError "Error closing session"
                             else SessionClose s]) w)
     end).
Proof.
  unfold closeApiSession, bind, read. destruct (sessionRef w) as [s|]; simpl.
  - unfold try_catch, call, console_error, emit, write.
    destruct (raises (SessionClose s)); reflexivity.
  - reflexivity.
Qed.

Hypothesis platform : release_total raises.

Lemma forEach_tracks_eq (ts : list nat) (w : World) :
  forEach ts (fun track => call raises (TrackStop track)) w
  = (Normal tt, with_effects (effects w ++ map TrackStop ts) w).
Proof.
  revert w. induction ts as [|t ts IH]; intros w.
  - simpl. unfold ret. rewrite app_nil_r, with_effects_id. reflexivity.
  - cbn [forEach]. unfold bind at 1, call.
    rewrite (platform (TrackStop t) eq_refl), IH. cbn [effects with_effects map].
    rewrite with_effects_twice, <- app_assoc. reflexivity.
Qed.

Lemma stopMicrophoneStream_eq (w : World) :
  stopMicrophoneStream raises w
  = (Normal tt,
     match streamRef w with
     | None => w
     | Some st =>
         with_streamRef None
           (with_effects (effects w ++ map TrackStop (getTracks st)) w)
     end).
Proof.
  unfold stopMicrophoneStream, bind, read. destruct (streamRef w) as [st|]; simpl.
  - rewrite forEach_tracks_eq. reflexivity.
  - reflexivity.
Qed.

Lemma call_release_eq (e : Effect) (w : World) :
  unguarded_release e = true ->
  call raises e w = (Normal tt, with_effects (effects w ++ [e]) w).
Proof. intros H. unfold call. rewrite (platform e H). reflexivity. Qed.

(** [if (ref.current) { ref.current.release(); ref.current = null; }] *)
Lemma release_ref_eq {A} (o : option A) (e : A -> Effect)
    (clear : World -> World) (w : World) :
  (forall a, unguarded_release (e a) = true) ->
  when_some o (fun a => call raises (e a) ;; write clear) w
  = (Normal tt, released o e clear w).
Proof.
  intros H. destruct o as [a|]; simpl; [|reflexivity].
  unfold bind. rewrite call_release_eq by apply H. reflexivity.
Qed.

Lemma disconnectInputNodes_eq (w : World) :
  disconnectInputNodes raises w
  = (Normal tt,
     let w1 := released (sourceRef w) NodeDisconnect (with_sourceRef None) w in
     let w2 := released (processorRef w1) NodeDisconnect (with_processorRef None) w1 in
     released (inputContextRef w2) (fun c => ContextClose (ctxId c))
       (with_inputContextRef None) w2).
Proof.
  unfold disconnectInputNodes.
  unfold bind at 1, read at 1. unfold bind at 1.
  rewrite release_ref_eq by reflexivity.
  unfold bind at 1, read at 1. unfold bind at 1.
  rewrite release_ref_eq by reflexivity.
  unfold bind at 1, read at 1.
  rewrite release_ref_eq by reflexivity.
  reflexivity.
Qed.

Lemma stopOutputAudio_eq (w : World) :
  stopOutputAudio raises w
  = (Normal tt,
     let w1 := with_scheduledSourcesRef []
                 (with_effects
                    (effects w ++ stop_effects raises (scheduledSourcesRef w)) w) in
     released (outputContextRef w1) (fun c => ContextClose (ctxId c))
       (with_outputContextRef None) w1).
Proof.
  unfold stopOutputAudio.
  erewrite bind_normal by apply stopScheduledSources_eq.
  unfold bind at 1, read at 1.
  rewrite release_ref_eq by reflexivity.
  reflexivity.
Qed.

(** With the platform's contract, [stopSession] runs to its end, makes
    exactly the calls of [teardown_effects] and leaves [torn_down]. *)
Lemma stopSession_total (w : World) :
  stopSession raises w = (Normal tt, torn_down raises w).
Proof.
  unfold stopSession.
  erewrite bind_normal by apply closeApiSession_eq.
  erewrite bind_normal by apply stopMicrophoneStream_eq.
  erewrite bind_normal by apply disconnectInputNodes_eq.
  erewrite bind_normal by apply stopOutputAudio_eq.
  unfold bind, setIsActive, setStatus, write. f_equal.
  destruct w as [a st em ic oc sr so pr nx sch se ni ef].
  unfold torn_down, teardown_effects, opt_list, released.
  destruct se as [se|], sr as [sr|], so as [so|], pr as [pr|],
           ic as [ic|], oc as [oc|];
    simpl; f_equal;
    repeat rewrite <- app_assoc; simpl; rewrite ?app_nil_r; reflexivity.
Qed.

End Teardown.

(* ================================================================== *)
(** ** Message handling *)
(* ================================================================== *)


Lemma enqueue_eq (outputCtx : AudioContext) (currentTime : Q) (b : AudioBuffer)
    (w : World) :
  enqueue outputCtx currentTime b w = (Normal tt, enqueued outputCtx currentTime b w).
Proof.
  unfold enqueue, enqueued, startAt, bind, fresh, emit, read, write, ret.
  cbn [nextStartTimeRef with_effects with_nextId effects nextId].
  destruct (Qltb (nextStartTimeRef w) currentTime); simpl;
    rewrite <- app_assoc; reflexivity.
Qed.

Section Messages.

Variable raises : Effect -> bool.

Lemma interrupt_eq (w : World) :
  interrupt raises w = (Normal tt, interrupt_handled raises w).
Proof.
  unfold interrupt, console_log, emit.
  unfold bind at 1, write at 1.
  erewrite bind_normal by apply stopScheduledSources_eq.
  unfold write, interrupt_handled. simpl. rewrite <- app_assoc. reflexivity.
Qed.

Lemma onmessage_closed (currentTime : Q) (message : LiveServerMessage) (w : World) :
  outputContextRef w = None ->
  onmessage raises currentTime message w = (Normal tt, w).
Proof. intros H. unfold onmessage, bind, read. rewrite H. reflexivity. Qed.

Lemma onmessage_eq (currentTime : Q) (message : LiveServerMessage)
    (outputCtx : AudioContext) (w : World) :
  outputContextRef w = Some outputCtx ->
  onmessage raises currentTime message w
  = (Normal tt,
     let w1 := audio_handled outputCtx currentTime message w in
     if isInterrupted message then interrupt_handled raises w1 else w1).
Proof.
  intros H. unfold onmessage. unfold bind at 1, read at 1. rewrite H.
  unfold audio_handled.
  destruct (base64Audio message) as [[|c s]|]; cbn [truthy_string].
  - unfold bind, ret. destruct (isInterrupted message);
      [apply interrupt_eq | reflexivity].
  - unfold bind at 1, try_catch.
    destruct (decodePayload (String c s)) as [e|b]; cbn [lift].
    + unfold bind at 1, throw, console_error, emit, write.
      destruct (isInterrupted message); [apply interrupt_eq | reflexivity].
    + unfold bind at 1, ret at 1. rewrite enqueue_eq.
      destruct (isInterrupted message); [apply interrupt_eq | reflexivity].
  - unfold bind, ret. destruct (isInterrupted message);
      [apply interrupt_eq | reflexivity].
Qed.

End Messages.

(* ================================================================== *)
(** ** An invariant of every run *)
(* ================================================================== *)

(** The steps of a handler one by one; what is left are the writes, and a
    write that does not touch the playback half leaves the property as it
    is. *)
Ltac preserve_steps :=
  repeat first
    [ apply preserves_bind; [|intro]
    | apply preserves_try_catch; [|intro]
    | apply preserves_forEach; intro
    | apply preserves_when_some; intro
    | apply preserves_if
    | apply preserves_ret
    | apply preserves_throw
    | apply preserves_read
    | apply preserves_lift
    | apply preserves_call; intros ? ? H; exact H
    | apply preserves_emit; intros ? ? H; exact H
    | apply preserves_fresh; intros ? ? H; exact H
    | apply preserves_write; intros ? H; exact H ].

Section Invariant.

Variable raises : Effect -> bool.

Lemma closeApiSession_idle : preserves idle_when_closed (closeApiSession raises).
Proof. unfold closeApiSession, console_error. preserve_steps. Qed.

Lemma stopMicrophoneStream_idle :
  preserves idle_when_closed (stopMicrophoneStream raises).
Proof. unfold stopMicrophoneStream. preserve_steps. Qed.

Lemma disconnectInputNodes_idle :
  preserves idle_when_closed (disconnectInputNodes raises).
Proof. unfold disconnectInputNodes. preserve_steps. Qed.

(** From step 4 on, [stopSession] ends idle wherever it ends: either the
    close of the output context throws and the context stays, or the
    cursor is reset. *)
Lemma stopSession_tail_idle (w : World) :
  idle_when_closed
    (snd ((stopOutputAudio raises ;;
           setIsActive false ;;
           setStatus Disconnected ;;
           write (with_nextStartTimeRef 0%Q)) w)).
Proof.
  unfold stopOutputAudio.
  unfold bind at 1. unfold bind at 1. rewrite stopScheduledSources_eq.
  unfold bind at 1, read at 1.
  cbn [outputContextRef with_scheduledSourcesRef with_effects].
  destruct (outputContextRef w) as [c|] eqn:E; cbn [when_some].
  - unfold bind at 1, call.
    destruct (raises (ContextClose (ctxId c))); simpl.
    + unfold idle_when_closed. simpl. rewrite E. discriminate.
    + unfold idle_when_closed. simpl. auto.
  - unfold idle_when_closed. simpl. auto.
Qed.

Lemma stopSession_idle : preserves idle_when_closed (stopSession raises).
Proof.
  unfold stopSession.
  apply preserves_bind; [apply closeApiSession_idle | intros _].
  apply preserves_bind; [apply stopMicrophoneStream_idle | intros _].
  apply preserves_bind; [apply disconnectInputNodes_idle | intros _].
  intros w _. apply stopSession_tail_idle.
Qed.

Lemma startSession_idle : preserves idle_when_closed (startSession raises).
Proof.
  unfold startSession, newAudioContext, startSession_catch, setErrorMessage,
    setStatus, console_error.
  preserve_steps.
  apply preserves_write. intros w _. unfold idle_when_closed. simpl. discriminate.
Qed.

Lemma onmessage_idle currentTime message :
  preserves idle_when_closed (onmessage raises currentTime message).
Proof.
  intros w H. destruct (outputContextRef w) as [c|] eqn:E.
  - rewrite (onmessage_eq raises currentTime message w E). cbn [snd].
    assert (Hc : forall w', outputContextRef w' = Some c -> idle_when_closed w').
    { intros w' H' H''. rewrite H' in H''. discriminate. }
    apply Hc. unfold audio_handled, interrupt_handled, enqueued.
    destruct (isInterrupted message);
      destruct (base64Audio message) as [[|a s]|]; try exact E;
      destruct (decodePayload (String a s)); exact E.
  - rewrite (onmessage_closed raises currentTime message w E). exact H.
Qed.

Lemma onended_idle source : preserves idle_when_closed (onended source).
Proof.
  apply preserves_write. intros w H Hc. destruct (H Hc) as [Hs Hn].
  simpl. rewrite Hs. split; [reflexivity | exact Hn].
Qed.

Lemma handler_idle (ev : Event) : preserves idle_when_closed (handler raises ev).
Proof.
  destruct ev; cbn [handler].
  - unfold button_onClick. apply preserves_bind; [apply preserves_read | intros s].
    apply preserves_if; [apply preserves_ret|].
    apply preserves_bind; [apply preserves_read | intros a].
    apply preserves_if; [apply stopSession_idle | apply startSession_idle].
  - unfold startSession_resume, startSession_catch, setErrorMessage, setStatus,
      console_error. preserve_steps.
  - unfold sessionPromise_then. preserve_steps.
  - unfold sessionPromise_catch, setErrorMessage, setStatus, console_error.
    preserve_steps.
  - unfold onopen, console_log, setStatus, setIsActive. preserve_steps.
  - apply onmessage_idle.
  - unfold onclose, console_log.
    apply preserves_bind; [preserve_steps | intros _; apply stopSession_idle].
  - unfold onerror, console_error, setErrorMessage, setStatus.
    apply preserves_bind; [preserve_steps | intros _].
    apply preserves_bind; [preserve_steps | intros _].
    apply preserves_bind; [apply stopSession_idle | intros _]. preserve_steps.
  - apply onended_idle.
  - apply stopSession_idle.
Qed.

(** Whatever the event loop has delivered since the component was mounted,
    without an output context nothing is scheduled and the cursor is at
    zero. *)
Lemma run_idle (evs : list Event) (w : World) :
  idle_when_closed w -> idle_when_closed (run raises evs w).
Proof.
  revert w. induction evs as [|ev evs IH]; intros w H; simpl; [exact H|].
  apply IH. apply handler_idle. exact H.
Qed.

Lemma initial_idle : idle_when_closed initial.
Proof. intros _. split; reflexivity. Qed.

End Invariant.

(* ================================================================== *)
(** ** Playback scheduling *)
(* ================================================================== *)

Lemma set_add_In (x : nat) (s : list nat) : In x (set_add x s).
Proof.
  unfold set_add. destruct (existsb (Nat.eqb x) s) eqn:E.
  - apply existsb_exists in E. destruct E as [y [Hy Hxy]].
    apply Nat.eqb_eq in Hxy. subst y. exact Hy.
  - apply in_or_app. right. left. reflexivity.
Qed.

Lemma set_add_incl (x : nat) (s : list nat) : incl s (set_add x s).
Proof.
  unfold set_add. destruct (existsb (Nat.eqb x) s).
  - apply incl_refl.
  - apply incl_appl, incl_refl.
Qed.

Lemma stop_effects_In raises (s : nat) (srcs : list nat) :
  In s srcs -> raises (SourceStop s) = false ->
  In (SourceStop s) (stop_effects raises srcs).
Proof.
  intros Hin Hr. unfold stop_effects. apply in_map, filter_In.
  split; [exact Hin | rewrite Hr; reflexivity].
Qed.

Lemma audio_handled_output outputCtx currentTime message w :
  outputContextRef (audio_handled outputCtx currentTime message w)
  = outputContextRef w.
Proof.
  unfold audio_handled.
  destruct (base64Audio message) as [[|a s]|]; try reflexivity.
  destruct (decodePayload (String a s)); reflexivity.
Qed.

Lemma audio_handled_scheduled outputCtx currentTime message w :
  incl (scheduledSourcesRef w)
       (scheduledSourcesRef (audio_handled outputCtx currentTime message w)).
Proof.
  unfold audio_handled.
  destruct (base64Audio message) as [[|a s]|]; try apply incl_refl.
  destruct (decodePayload (String a s)); [apply incl_refl | apply set_add_incl].
Qed.

Lemma audio_handled_started outputCtx currentTime message w :
  started (effects (audio_handled outputCtx currentTime message w))
  = started (effects w)
    ++ match base64Audio message with
       | Some (String c s) =>
           match decodePayload (String c s) with
           | inr b => [(b, startAt currentTime (nextStartTimeRef w))]
           | inl _ => []
           end
       | _ => []
       end.
Proof.
  unfold audio_handled.
  destruct (base64Audio message) as [[|a s]|]; rewrite ?app_nil_r; try reflexivity.
  destruct (decodePayload (String a s)); simpl; rewrite started_app; simpl.
  - rewrite !app_nil_r. reflexivity.
  - reflexivity.
Qed.

Lemma interrupt_handled_started raises w :
  started (effects (interrupt_handled raises w)) = started (effects w).
Proof.
  unfold interrupt_handled. simpl. rewrite started_app. simpl.
  rewrite started_stop_effects. apply app_nil_r.
Qed.


Example chunk_decodes :
  decodePayload chunk = inr (mkAudioBuffer 1 24000 [16384 # 32768; -16384 # 32768]).
Proof. reflexivity. Qed.

Example bad_chunk_fails : decodePayload bad_chunk = inl DecodeError.
Proof. reflexivity. Qed.

Example live_is_connected :
  status (live no_raise) = Connected
  /\ isActive (live no_raise) = true
  /\ outputContextRef (live no_raise) = Some (mkAudioContext 1 24000)
  /\ streamRef (live no_raise) = Some mic
  /\ sessionRef (live no_raise) = Some 200%nat.
Proof. repeat split. Qed.


(* ================================================================== *)
(** ** Interruption *)
(* ================================================================== *)

(** C2.  A message with the interruption flag, handled after any sequence of
    events since the component was mounted (none included): the handler
    returns normally; every source scheduled before is stopped by it, or its
    [stop()] throws and the throw is swallowed; the scheduled set is left
    empty and the cursor at zero; and the next buffer enqueued, at a clock
    reading [now >= 0], starts at [now].  The interruption block alone does
    the same from any component state. *)
Theorem interrupt_any_time (raises : Effect -> bool) (evs : list Event)
    (currentTime : Q) (message : LiveServerMessage) :
  isInterrupted message = true ->
  let w := run raises evs initial in
  (exists w' new,
     onmessage raises currentTime message w = (Normal tt, w')
     /\ effects w' = effects w ++ new
     /\ (forall s, In s (scheduledSourcesRef w) ->
           raises (SourceStop s) = true \/ In (SourceStop s) new)
     /\ scheduledSourcesRef w' = []
     /\ nextStartTimeRef w' = 0%Q
     /\ forall outputCtx now audioBuffer, (0 <= now)%Q ->
          exists w'' t,
            enqueue outputCtx now audioBuffer w' = (Normal tt, w'')
            /\ started (effects w'') = started (effects w') ++ [(audioBuffer, t)]
            /\ (t == now)%Q)
  /\ (forall w0, exists w0',
        interrupt raises w0 = (Normal tt, w0')
        /\ scheduledSourcesRef w0' = []
        /\ nextStartTimeRef w0' = 0%Q).
Proof.
  intros Hi w.
  assert (Hnext : forall w', nextStartTimeRef w' = 0%Q ->
            forall outputCtx now audioBuffer, (0 <= now)%Q ->
            exists w'' t,
              enqueue outputCtx now audioBuffer w' = (Normal tt, w'')
              /\ started (effects w'') = started (effects w') ++ [(audioBuffer, t)]
              /\ (t == now)%Q).
  { intros w' Hz outputCtx now b Hnow.
    exists (enqueued outputCtx now b w'), (startAt now 0%Q).
    split; [apply enqueue_eq|]. split.
    - unfold enqueued. simpl. rewrite started_app, Hz. reflexivity.
    - unfold startAt. destruct (Qltb 0 now) eqn:E; [reflexivity|].
      apply Qltb_ge in E. apply Qle_antisym; assumption. }
  split.
  - destruct (outputContextRef w) as [c|] eqn:E.
    + assert (Ha : exists pre,
                 effects (audio_handled c currentTime message w) = effects w ++ pre).
      { unfold audio_handled. destruct (base64Audio message) as [[|a s]|];
          try (exists []; symmetry; apply app_nil_r).
        destruct (decodePayload (String a s)); simpl; eexists; reflexivity. }
      destruct Ha as [pre Ha].
      exists (interrupt_handled raises (audio_handled c currentTime message w)).
      exists (pre ++ ConsoleLog "Interrupted!"
                     :: stop_effects raises
                          (scheduledSourcesRef
                             (audio_handled c currentTime message w))).
      split.
      { rewrite (onmessage_eq raises currentTime message w E).
        cbv zeta. rewrite Hi. reflexivity. }
      split; [|split; [|split; [|split]]].
      * unfold interrupt_handled. cbn [effects with_nextStartTimeRef
          with_scheduledSourcesRef with_effects]. rewrite Ha, <- app_assoc.
        reflexivity.
      * intros s Hs. destruct (raises (SourceStop s)) eqn:Hr; [left; reflexivity|].
        right. apply in_or_app. right. right.
        apply stop_effects_In; [|exact Hr].
        apply (audio_handled_scheduled c currentTime message w). exact Hs.
      * reflexivity.
      * reflexivity.
      * apply Hnext. reflexivity.
    + destruct (run_idle raises evs initial_idle E) as [Hs Hn].
      exists w, []. split; [apply onmessage_closed; exact E|].
      split; [symmetry; apply app_nil_r|]. split.
      * intros s H. fold w in Hs. rewrite Hs in H. destruct H.
      * split; [exact Hs|]. split; [exact Hn|]. apply Hnext. exact Hn.
  - intros w0. exists (interrupt_handled raises w0).
    split; [apply interrupt_eq|]. split; reflexivity.
Qed.

Lemma interrupt_any_time_witness :
  exists w',
    onmessage no_raise (1 # 2) (audio_message EmptyString (Some true))
      (run no_raise (connected_events ++ [Message 0 (audio_message chunk None)])
         initial)
    = (Normal tt, w').
Proof.
  destruct (@interrupt_any_time no_raise
              (connected_events ++ [Message 0 (audio_message chunk None)])
              (1 # 2) (audio_message EmptyString (Some true)) eq_refl)
    as [[w' [new [H _]]] _].
  exists w'. exact H.
Defined.

(** C10.  A message that carries both an audio payload and the interruption
    flag, handled after any sequence of events: the handler returns normally
    with the scheduled set empty and the cursor at zero.  When the output
    context is present and the payload decodes, the calls the handler makes
    are, in order: the start of the new source, the interruption log line,
    and the stops of every scheduled source, the new one among them. *)
Theorem interruption_wins (raises : Effect -> bool) (evs : list Event)
    (currentTime : Q) (message : LiveServerMessage) :
  truthy_string (base64Audio message) = true ->
  isInterrupted message = true ->
  let w := run raises evs initial in
  exists w',
    onmessage raises currentTime message w = (Normal tt, w')
    /\ scheduledSourcesRef w' = []
    /\ nextStartTimeRef w' = 0%Q
    /\ forall outputCtx payload audioBuffer,
         outputContextRef w = Some outputCtx ->
         base64Audio message = Some payload ->
         decodePayload payload = inr audioBuffer ->
         effects w'
         = effects w
           ++ [NodeConnect (nextId w) (ToDestination (ctxId outputCtx));
               SourceStart (nextId w) audioBuffer
                 (startAt currentTime (nextStartTimeRef w));
               ConsoleLog "Interrupted!"]
           ++ stop_effects raises (set_add (nextId w) (scheduledSourcesRef w)).
Proof.
  intros Ha Hi w.
  destruct (outputContextRef w) as [c|] eqn:E.
  - eexists. split; [apply (onmessage_eq raises currentTime message w E)|].
    cbv zeta. rewrite Hi. split; [reflexivity|]. split; [reflexivity|].
    intros outputCtx payload b Hc Hp Hd. inversion Hc; subst c.
    unfold audio_handled. rewrite Hp in *.
    destruct payload as [|a s]; [discriminate Ha|]. rewrite Hd.
    unfold interrupt_handled, enqueued. simpl. rewrite <- app_assoc. reflexivity.
  - destruct (run_idle raises evs initial_idle E) as [Hs Hn].
    exists w. split; [apply onmessage_closed; exact E|].
    split; [exact Hs|]. split; [exact Hn|].
    intros outputCtx payload b Hc. discriminate Hc.
Qed.

Lemma interruption_wins_witness :
  exists w',
    onmessage no_raise (1 # 2) (audio_message chunk (Some true)) (live no_raise)
    = (Normal tt, w')
    /\ scheduledSourcesRef w' = [].
Proof.
  destruct (@interruption_wins no_raise connected_events (1 # 2)
              (audio_message chunk (Some true)) eq_refl eq_refl)
    as [w' [H [Hs _]]].
  exists w'. split; [exact H | exact Hs].
Defined.

(* ================================================================== *)
(** ** Inbound audio *)
(* ================================================================== *)

Lemma run_deliveries_output raises msgs w c :
  outputContextRef w = Some c ->
  outputContextRef (run raises (deliveries msgs) w) = Some c.
Proof.
  revert w. induction msgs as [|[now m] msgs IH]; intros w H; simpl; [exact H|].
  apply IH. unfold step. cbn [handler fst snd].
  rewrite (onmessage_eq raises now m w H). cbn [snd]. cbv zeta.
  destruct (isInterrupted m); cbn [interrupt_handled outputContextRef
    with_nextStartTimeRef with_scheduledSourcesRef with_effects];
    rewrite audio_handled_output; exact H.
Qed.

Lemma run_deliveries_started raises msgs w c :
  outputContextRef w = Some c ->
  map fst (started (effects (run raises (deliveries msgs) w)))
  = map fst (started (effects w)) ++ payload_buffers msgs.
Proof.
  revert w. induction msgs as [|[now m] msgs IH]; intros w H.
  - simpl. symmetry. apply app_nil_r.
  - change (run raises (deliveries ((now, m) :: msgs)) w)
      with (run raises (deliveries msgs) (step raises w (Message now m))).
    assert (Hc : outputContextRef (step raises w (Message now m)) = Some c).
    { apply (run_deliveries_output raises [(now, m)] w H). }
    rewrite (IH _ Hc). unfold step. cbn [handler fst snd].
    rewrite (onmessage_eq raises now m w H). cbn [snd]. cbv zeta.
    assert (Hs : started (effects (if isInterrupted m
                   then interrupt_handled raises (audio_handled c now m w)
                   else audio_handled c now m w))
                 = started (effects (audio_handled c now m w))).
    { destruct (isInterrupted m); [apply interrupt_handled_started | reflexivity]. }
    rewrite Hs, audio_handled_started, map_app, <- app_assoc. f_equal.
    cbn [payload_buffers].
    destruct (base64Audio m) as [[|a s]|]; try reflexivity.
    destruct (decodePayload (String a s)); reflexivity.
Qed.

(** C6.  While the output context is present: a message whose audio payload
    is present, not empty and decodes is handled by starting a source for
    the decoded buffer at the later of the clock reading and the cursor, and
    (unless the same message interrupts) registering it in the scheduled
    set; and for every sequence of messages, the buffers started are the
    decoded payloads of the messages in their arrival order. *)
Theorem audio_enqueued_in_arrival_order (raises : Effect -> bool) (w : World)
    (outputCtx : AudioContext) :
  outputContextRef w = Some outputCtx ->
  (forall currentTime message payload audioBuffer,
     base64Audio message = Some payload ->
     payload <> EmptyString ->
     decodePayload payload = inr audioBuffer ->
     exists w',
       onmessage raises currentTime message w = (Normal tt, w')
       /\ started (effects w')
          = started (effects w)
            ++ [(audioBuffer, startAt currentTime (nextStartTimeRef w))]
       /\ (isInterrupted message = false ->
           In (nextId w) (scheduledSourcesRef w')
           /\ nextStartTimeRef w'
              = (startAt currentTime (nextStartTimeRef w) + duration audioBuffer)%Q))
  /\ (forall msgs,
        map fst (started (effects (run raises (deliveries msgs) w)))
        = map fst (started (effects w)) ++ payload_buffers msgs).
Proof.
  intros H. split.
  - intros now m payload b Hp Hne Hd.
    eexists. split; [apply (onmessage_eq raises now m w H)|]. cbv zeta.
    assert (Ha : audio_handled outputCtx now m w = enqueued outputCtx now b w).
    { unfold audio_handled. rewrite Hp. destruct payload as [|a s];
        [contradiction Hne; reflexivity|]. rewrite Hd. reflexivity. }
    rewrite Ha. split.
    + destruct (isInterrupted m); rewrite ?interrupt_handled_started;
        unfold enqueued; simpl; rewrite started_app; reflexivity.
    + intros Hi. rewrite Hi. split; [apply set_add_In | reflexivity].
  - intros msgs. apply (run_deliveries_started raises msgs w H).
Qed.

Lemma audio_enqueued_in_arrival_order_witness :
  map fst (started (effects
    (run no_raise
       (deliveries [(0, audio_message chunk None);
                    (0, audio_message bad_chunk None);
                    (0, audio_message chunk None)])
       (live no_raise))))
  = [mkAudioBuffer 1 24000 [16384 # 32768; -16384 # 32768];
     mkAudioBuffer 1 24000 [16384 # 32768; -16384 # 32768]].
Proof.
  exact (proj2 (@audio_enqueued_in_arrival_order no_raise (live no_raise)
                  (mkAudioContext 1 24000) eq_refl)
           [(0, audio_message chunk None);
            (0, audio_message bad_chunk None);
            (0, audio_message chunk None)]).
Defined.

(** C7.  While the output context is present, a message whose audio payload
    fails to decode: the handler logs the error and goes on exactly as it
    would for the same message without the audio part.  When the message
    carries nothing else, the component afterwards is the component before
    plus that log line; in every case the handler returns normally, starts
    no playback and leaves [status], [isActive] and the output context as
    they were. *)
Theorem malformed_chunk_dropped (raises : Effect -> bool) (w : World)
    (outputCtx : AudioContext) (currentTime : Q) (message : LiveServerMessage)
    (payload : string) (e : Exn) :
  outputContextRef w = Some outputCtx ->
  base64Audio message = Some payload ->
  payload <> EmptyString ->
  decodePayload payload = inl e ->
  let logged := with_effects (effects w ++ [ConsoleError "Error decoding audio"]) w in
  onmessage raises currentTime message w
  = onmessage raises currentTime (without_audio message) logged
  /\ (isInterrupted message = false ->
      onmessage raises currentTime message w = (Normal tt, logged))
  /\ exists w',
       onmessage raises currentTime message w = (Normal tt, w')
       /\ status w' = status w
       /\ isActive w' = isActive w
       /\ outputContextRef w' = Some outputCtx
       /\ started (effects w') = started (effects w).
Proof.
  intros H Hp Hne Hd logged.
  assert (Ha : audio_handled outputCtx currentTime message w = logged).
  { unfold audio_handled. rewrite Hp. destruct payload as [|a s];
      [contradiction Hne; reflexivity|]. rewrite Hd. reflexivity. }
  assert (Hw : isInterrupted (without_audio message) = isInterrupted message).
  { reflexivity. }
  rewrite (onmessage_eq raises currentTime message w H).
  rewrite (onmessage_eq raises currentTime (without_audio message) logged H).
  cbv zeta. rewrite Ha, Hw. split; [reflexivity|]. split.
  - intros Hi. rewrite Hi. reflexivity.
  - eexists. split; [reflexivity|].
    destruct (isInterrupted message); repeat split; try exact H;
      rewrite ?interrupt_handled_started; unfold logged; simpl;
      rewrite started_app; simpl; apply app_nil_r.
Qed.

Lemma malformed_chunk_dropped_witness :
  onmessage no_raise 0 (audio_message bad_chunk None) (live no_raise)
  = (Normal tt,
     with_effects (effects (live no_raise) ++ [ConsoleError "Error decoding audio"])
       (live no_raise)).
Proof.
  exact (proj1 (proj2 (@malformed_chunk_dropped no_raise (live no_raise)
                         (mkAudioContext 1 24000) 0 (audio_message bad_chunk None)
                         bad_chunk DecodeError eq_refl eq_refl
                         ltac:(discriminate) eq_refl))
           eq_refl).
Defined.

(* ================================================================== *)
(** ** Session lifecycle *)
(* ================================================================== *)

Lemma torn_down_twice raises (w : World) :
  torn_down raises (torn_down raises w) = torn_down raises w.
Proof.
  unfold torn_down at 1. unfold teardown_effects. simpl. rewrite app_nil_r.
  reflexivity.
Qed.

Lemma teardown_effects_parts raises (w : World) :
  (forall s, sessionRef w = Some s -> raises (SessionClose s) = false ->
     In (SessionClose s) (teardown_effects raises w))
  /\ (forall s, sessionRef w = Some s -> raises (SessionClose s) = true ->
        In (ConsoleError "Error closing session") (teardown_effects raises w))
  /\ (forall st t, streamRef w = Some st -> In t (getTracks st) ->
        In (TrackStop t) (teardown_effects raises w))
  /\ (forall n, sourceRef w = Some n ->
        In (NodeDisconnect n) (teardown_effects raises w))
  /\ (forall n, processorRef w = Some n ->
        In (NodeDisconnect n) (teardown_effects raises w))
  /\ (forall c, inputContextRef w = Some c ->
        In (ContextClose (ctxId c)) (teardown_effects raises w))
  /\ (forall src, In src (scheduledSourcesRef w) ->
        raises (SourceStop src) = false ->
        In (SourceStop src) (teardown_effects raises w))
  /\ (forall c, outputContextRef w = Some c ->
        In (ContextClose (ctxId c)) (teardown_effects raises w)).
Proof.
  unfold teardown_effects.
  repeat split; intros.
  - rewrite H. cbn [opt_list]. rewrite H0. left. reflexivity.
  - rewrite H. cbn [opt_list]. rewrite H0. left. reflexivity.
  - rewrite H. apply in_or_app. right. apply in_or_app. left. simpl.
    apply in_map. assumption.
  - rewrite H. do 2 (apply in_or_app; right). apply in_or_app. left.
    left. reflexivity.
  - rewrite H. do 3 (apply in_or_app; right). apply in_or_app. left.
    left. reflexivity.
  - rewrite H. do 4 (apply in_or_app; right). apply in_or_app. left.
    left. reflexivity.
  - do 5 (apply in_or_app; right). apply in_or_app. left.
    apply stop_effects_In; assumption.
  - rewrite H. do 6 (apply in_or_app; right). left. reflexivity.
Qed.

(** C5, as the code has it.  When stopping a track, disconnecting a node and
    closing a context do not throw, [stopSession] runs to its end whatever
    the session close and the stops of the scheduled sources do: a throw of
    the session close is caught and logged, a throw of a source's stop is
    caught and not logged, and every later step still runs.  The calls made
    are exactly [teardown_effects]: every track stopped, both input nodes
    disconnected, both contexts closed, every source whose stop does not
    throw stopped; every ref is cleared and the state is Disconnected. *)
Theorem teardown_guarded_steps (raises : Effect -> bool) (w : World) :
  release_total raises ->
  exists w',
    stopSession raises w = (Normal tt, w')
    /\ effects w' = effects w ++ teardown_effects raises w
    /\ (status w' = Disconnected /\ isActive w' = false
        /\ sessionRef w' = None /\ streamRef w' = None
        /\ sourceRef w' = None /\ processorRef w' = None
        /\ inputContextRef w' = None /\ outputContextRef w' = None
        /\ scheduledSourcesRef w' = [] /\ nextStartTimeRef w' = 0%Q)
    /\ (forall s, sessionRef w = Some s -> raises (SessionClose s) = true ->
          In (ConsoleError "Error closing session") (teardown_effects raises w))
    /\ (forall st t, streamRef w = Some st -> In t (getTracks st) ->
          In (TrackStop t) (teardown_effects raises w))
    /\ (forall n, sourceRef w = Some n ->
          In (NodeDisconnect n) (teardown_effects raises w))
    /\ (forall n, processorRef w = Some n ->
          In (NodeDisconnect n) (teardown_effects raises w))
    /\ (forall c, inputContextRef w = Some c ->
          In (ContextClose (ctxId c)) (teardown_effects raises w))
    /\ (forall src, In src (scheduledSourcesRef w) ->
          raises (SourceStop src) = false ->
          In (SourceStop src) (teardown_effects raises w))
    /\ (forall c, outputContextRef w = Some c ->
          In (ContextClose (ctxId c)) (teardown_effects raises w)).
Proof.
  intros H. exists (torn_down raises w).
  split; [apply stopSession_total; exact H|].
  split; [reflexivity|].
  split; [repeat split|].
  destruct (teardown_effects_parts raises w) as (_ & P2 & P3 & P4 & P5 & P6 & P7 & P8).
  repeat split; assumption.
Qed.

Lemma source_stop_raises_total : release_total source_stop_raises.
Proof. intros e H. destruct e; try discriminate H; reflexivity. Qed.

Lemma no_raise_total : release_total no_raise.
Proof. intros e _. reflexivity. Qed.

Lemma teardown_guarded_steps_witness :
  exists w',
    stopSession source_stop_raises
      (step source_stop_raises (live source_stop_raises)
         (Message 0 (audio_message chunk None)))
    = (Normal tt, w')
    /\ status w' = Disconnected.
Proof.
  destruct (@teardown_guarded_steps source_stop_raises
              (step source_stop_raises (live source_stop_raises)
                 (Message 0 (audio_message chunk None)))
              source_stop_raises_total)
    as [w' [H [_ [[Hs _] _]]]].
  exists w'. split; [exact H | exact Hs].
Defined.

(** C5, as the claim has it, fails twice.  When the stop of a microphone
    track throws, [stopSession] ends there: the output context is neither
    closed nor cleared and the state is still Connected.  When the stop of a
    scheduled source throws, the teardown completes but nothing is logged. *)
Lemma teardown_claim_counterexample :
  (let r := stopSession track_stop_raises (live track_stop_raises) in
   fst r = Throw (CallFailed (TrackStop 101))
   /\ outputContextRef (snd r) = Some (mkAudioContext 1 24000)
   /\ ~ In (ContextClose 1) (effects (snd r))
   /\ status (snd r) = Connected)
  /\ (let w := step source_stop_raises (live source_stop_raises)
                 (Message 0 (audio_message chunk None)) in
      let r := stopSession source_stop_raises w in
      scheduledSourcesRef w = [4%nat]
      /\ fst r = Normal tt
      /\ effects (snd r)
         = effects w ++ [SessionClose 200; TrackStop 101; NodeDisconnect 2;
                         NodeDisconnect 3; ContextClose 0; ContextClose 1]).
Proof.
  split.
  - cbv zeta. vm_compute. repeat split.
    intros H. repeat (destruct H as [H|H]; [discriminate H|]). exact H.
  - cbv zeta. vm_compute. repeat split.
Qed.

(** C8.  When the release calls the teardown does not guard keep the
    platform's contract, [stopSession] from any component state returns
    normally and leaves Disconnected, and a second [stopSession] right after
    returns normally and changes nothing at all, making no call.  Before any
    start, [stopSession] returns normally and changes nothing (whatever the
    platform does). *)
Theorem stop_idempotent (raises : Effect -> bool) (w : World) :
  release_total raises ->
  (exists w1,
     stopSession raises w = (Normal tt, w1)
     /\ status w1 = Disconnected
     /\ stopSession raises w1 = (Normal tt, w1)
     /\ (stopSession raises ;; stopSession raises) w = stopSession raises w)
  /\ stopSession raises initial = (Normal tt, initial).
Proof.
  intros H. split.
  - exists (torn_down raises w).
    assert (H1 : stopSession raises w = (Normal tt, torn_down raises w))
      by (apply stopSession_total; exact H).
    assert (H2 : stopSession raises (torn_down raises w)
                 = (Normal tt, torn_down raises w)).
    { rewrite (stopSession_total H). rewrite torn_down_twice. reflexivity. }
    split; [exact H1|]. split; [reflexivity|]. split; [exact H2|].
    erewrite bind_normal by exact H1. rewrite H1. exact H2.
  - reflexivity.
Qed.

Lemma stop_idempotent_witness :
  exists w1,
    stopSession no_raise (live no_raise) = (Normal tt, w1)
    /\ status w1 = Disconnected
    /\ stopSession no_raise w1 = (Normal tt, w1).
Proof.
  destruct (@stop_idempotent no_raise (live no_raise) no_raise_total)
    as [[w1 [H1 [H2 [H3 _]]]] _].
  exists w1. repeat split; assumption.
Defined.

Lemma Status_eqb_eq (a b : Status) : Status_eqb a b = true <-> a = b.
Proof. destruct a, b; simpl; split; intros H; try reflexivity; discriminate H. Qed.

Lemma startSession_eq (raises : Effect -> bool) (w : World) :
  (forall c, raises (ContextNew c) = false) ->
  startSession raises w
  = (Normal tt,
     let inputCtx := mkAudioContext (nextId w) 16000 in
     let outputCtx := mkAudioContext (S (nextId w)) 24000 in
     with_outputContextRef (Some outputCtx)
       (with_inputContextRef (Some inputCtx)
          (with_effects (effects w ++ [ContextNew inputCtx; ContextNew outputCtx])
             (with_nextId (S (S (nextId w)))
                (with_status Connecting (with_errorMessage None w)))))).
Proof.
  intros H.
  unfold startSession, newAudioContext, setErrorMessage, setStatus, try_catch,
    bind, write, fresh, call, ret.
  cbn [nextId with_errorMessage with_status with_nextId with_effects effects].
  rewrite !H. simpl. rewrite <- app_assoc. reflexivity.
Qed.

(** C3, as the code has it.  The control does nothing while the status is
    Connecting; while the session is active it stops the session; in every
    other case — from Error as from Disconnected — it starts one: the status
    becomes Connecting and two new audio contexts are taken into the refs. *)
Theorem start_gate (raises : Effect -> bool) (w : World) :
  (status w = Connecting -> button_onClick raises w = (Normal tt, w))
  /\ (status w <> Connecting -> isActive w = true ->
      button_onClick raises w = stopSession raises w)
  /\ (status w <> Connecting -> isActive w = false ->
      (forall c, raises (ContextNew c) = false) ->
      exists w',
        button_onClick raises w = (Normal tt, w')
        /\ status w' = Connecting
        /\ inputContextRef w' = Some (mkAudioContext (nextId w) 16000)
        /\ outputContextRef w' = Some (mkAudioContext (S (nextId w)) 24000)).
Proof.
  unfold button_onClick, bind, read.
  split; [|split].
  - intros H. rewrite H. reflexivity.
  - intros H Ha. destruct (Status_eqb (status w) Connecting) eqn:E.
    + apply Status_eqb_eq in E. contradiction.
    + rewrite Ha. reflexivity.
  - intros H Ha Hr. destruct (Status_eqb (status w) Connecting) eqn:E.
    + apply Status_eqb_eq in E. contradiction.
    + rewrite Ha. eexists. split; [apply startSession_eq; exact Hr|].
      repeat split.
Qed.

Lemma start_gate_witness :
  exists w',
    button_onClick no_raise (run no_raise connect_failed_events initial)
    = (Normal tt, w')
    /\ status w' = Connecting.
Proof.
  destruct (proj2 (proj2 (@start_gate no_raise
              (run no_raise connect_failed_events initial))))
    as [w' [H [Hs _]]].
  - vm_compute. discriminate.
  - reflexivity.
  - reflexivity.
  - exists w'. split; [exact H | exact Hs].
Defined.

(** C3, as the claim has it, fails: after a failed connect the state is
    Error, not Disconnected, and a click starts a session all the same — the
    status becomes Connecting and a second input context is created while
    the first one was never closed. *)
Lemma start_from_error_accepted :
  let w := run no_raise connect_failed_events initial in
  let w' := step no_raise w Click in
  status w = Error
  /\ status w' = Connecting
  /\ inputContextRef w = Some (mkAudioContext 0 16000)
  /\ inputContextRef w' = Some (mkAudioContext 2 16000)
  /\ ~ In (ContextClose 0) (effects w').
Proof.
  cbv zeta. vm_compute. repeat split.
  intros H. repeat (destruct H as [H|H]; [discriminate H|]). exact H.
Qed.

(** C4, the defect.  The reaction to a rejected session promise, from any
    component state, sets the status to Error and the message, logs, and
    releases nothing: every ref is as before, no release call is made.
    After start, microphone grant and rejection the two contexts and the
    stream are still held and open, and so they are when the connect call
    itself throws (the [catch] of lines 200-204); the same failure delivered
    through [onerror] does release them. *)
Theorem connect_rejection_releases_nothing (w : World) :
  (exists w',
     sessionPromise_catch w = (Normal tt, w')
     /\ status w' = Error
     /\ effects w' = effects w ++ [ConsoleError "Connection failed"]
     /\ inputContextRef w' = inputContextRef w
     /\ outputContextRef w' = outputContextRef w
     /\ streamRef w' = streamRef w)
  /\ (let w1 := run no_raise connect_failed_events initial in
      status w1 = Error
      /\ inputContextRef w1 = Some (mkAudioContext 0 16000)
      /\ outputContextRef w1 = Some (mkAudioContext 1 24000)
      /\ streamRef w1 = Some mic
      /\ effects w1 = [ContextNew (mkAudioContext 0 16000);
                       ContextNew (mkAudioContext 1 24000);
                       LiveConnect;
                       ConsoleError "Connection failed"])
  /\ (let w3 := run connect_raises [Click; MediaResult (Some mic)] initial in
      status w3 = Error
      /\ inputContextRef w3 = Some (mkAudioContext 0 16000)
      /\ outputContextRef w3 = Some (mkAudioContext 1 24000)
      /\ streamRef w3 = Some mic
      /\ effects w3 = [ContextNew (mkAudioContext 0 16000);
                       ContextNew (mkAudioContext 1 24000);
                       ConsoleError "Failed to start session:"])
  /\ (let w2 := run no_raise connect_error_events initial in
      status w2 = Error
      /\ inputContextRef w2 = None
      /\ outputContextRef w2 = None
      /\ streamRef w2 = None
      /\ effects w2 = [ContextNew (mkAudioContext 0 16000);
                       ContextNew (mkAudioContext 1 24000);
                       LiveConnect;
                       ConsoleError "Live session error";
                       TrackStop 101;
                       ContextClose 0;
                       ContextClose 1]).
Proof.
  split; [|split; [|split]].
  - eexists. split; [reflexivity|]. repeat split.
  - cbv zeta. vm_compute. repeat split.
  - cbv zeta. vm_compute. repeat split.
  - cbv zeta. vm_compute. repeat split.
Qed.

(* ================================================================== *)
(** ** Sample codec *)
(* ================================================================== *)

Lemma toInt16_range (v : Z) : (-32768 <= toInt16 v <= 32767)%Z.
Proof. unfold toInt16. lia. Qed.

Lemma int16_bytes_roundtrip (v : Z) :
  (-32768 <= v <= 32767)%Z ->
  int16_of_bytes ((v mod 65536) mod 256) ((v mod 65536) / 256) = v.
Proof.
  intros H. unfold int16_of_bytes. cbv zeta.
  assert (E : ((v mod 65536) mod 256 + 256 * ((v mod 65536) / 256)
               = v mod 65536)%Z).
  { pose proof (Z.div_mod (v mod 65536) 256). lia. }
  rewrite E.
  destruct (Z.ltb_spec (v mod 65536) 32768) as [L|L];
    Z.to_euclidean_division_equations; lia.
Qed.

Lemma decode_encode (s : list Q) :
  decodeFromPCM16 (encodeToPCM16 s) = map (fun x => encodeSample x # 32768) s.
Proof.
  induction s as [|x s IH]; [reflexivity|].
  unfold encodeToPCM16 in *. cbn [flat_map int16_bytes app decodeFromPCM16 map].
  unfold encodeSample at 1 2.
  rewrite int16_bytes_roundtrip by apply toInt16_range.
  rewrite IH. reflexivity.
Qed.

Lemma Qclamp_id (x : Q) : (-1 # 1 <= x)%Q -> (x <= 1)%Q -> Qclamp x = x.
Proof.
  intros L U. unfold Qclamp.
  apply Qltb_ge in L. apply Qltb_ge in U. rewrite L, U. reflexivity.
Qed.

Lemma encodeSample_error (x : Q) :
  (-1 # 1 <= x)%Q -> (x <= 1)%Q ->
  (Qabs ((encodeSample x # 32768) - x) <= 1 # 32768)%Q.
Proof.
  intros L U. unfold encodeSample. rewrite (Qclamp_id L U).
  destruct x as [n d]. unfold Qtruncate, toInt16.
  unfold Qle in L, U. cbn [Qnum Qden Qmult] in *.
  rewrite Pos.mul_1_r.
  apply Qabs_Qle_condition. unfold Qle, Qminus, Qplus, Qopp.
  cbn [Qnum Qden]. rewrite !Pos2Z.inj_mul.
  set (D := Zpos d) in *. assert (HD : (0 < D)%Z) by (unfold D; lia).
  pose proof (Z.quot_rem' (n * 32768) D) as Hq.
  assert (Hr : (Z.abs (Z.rem (n * 32768) D) < D)%Z).
  { pose proof (Z.rem_bound_abs (n * 32768) D). lia. }
  assert (Hs : (0 <= Z.rem (n * 32768) D * (n * 32768))%Z).
  { apply Z.rem_sign_mul. lia. }
  set (q := Z.quot (n * 32768) D) in *.
  set (r := Z.rem (n * 32768) D) in *.
  assert (Hq1 : (-32768 <= q <= 32768)%Z) by nia.
  destruct (Z.eq_dec q 32768) as [E|E].
  - assert (n = D) by nia. subst n.
    assert (r = 0)%Z by nia.
    rewrite E. split; nia.
  - replace (Z.max (-32768) (Z.min 32767 q)) with q by lia.
    split; nia.
Qed.

(** C9.  For samples within [-1, 1], decoding the encoding gives as many
    samples as went in, each within 1/32768 of the one it came from. *)
Theorem pcm16_roundtrip (s : list Q) :
  Forall (fun x => (-1 # 1 <= x)%Q /\ (x <= 1)%Q) s ->
  List.length (decodeFromPCM16 (encodeToPCM16 s)) = List.length s
  /\ Forall2 (fun x y => (Qabs (y - x) <= 1 # 32768)%Q)
       s (decodeFromPCM16 (encodeToPCM16 s)).
Proof.
  intros H. rewrite decode_encode. split; [apply length_map|].
  induction H as [|x s [L U] Hs IH]; simpl; constructor.
  - apply encodeSample_error; assumption.
  - exact IH.
Qed.

Lemma pcm16_roundtrip_witness :
  Forall2 (fun x y => (Qabs (y - x) <= 1 # 32768)%Q)
    [1; -1 # 1; 1 # 3; -2 # 7; 0]
    (decodeFromPCM16 (encodeToPCM16 [1; -1 # 1; 1 # 3; -2 # 7; 0])).
Proof.
  apply (@pcm16_roundtrip [1; -1 # 1; 1 # 3; -2 # 7; 0]).
  repeat constructor; vm_compute; discriminate.
Defined.

Example encode_full_scale :
  encodeToPCM16 [1; -1 # 1; 1 # 2] = [255; 127; 0; 128; 0; 64]%Z.
Proof. reflexivity. Qed.

(* ================================================================== *)
(** ** More about the session: invariants of every run *)
(* ================================================================== *)

Lemma preserves_emit_app P (e : Effect) :
  (forall w, P w -> P (with_effects (effects w ++ [e]) w)) -> preserves P (emit e).
Proof. intros Hf w H. apply Hf, H. Qed.

Lemma preserves_call_app raises P (e : Effect) :
  (forall w, P w -> P (with_effects (effects w ++ [e]) w)) ->
  preserves P (call raises e).
Proof.
  intros Hf w H. unfold call. destruct (raises e); simpl; [exact H | apply Hf, H].
Qed.

Lemma preserves_fresh_next P :
  (forall w, P w -> P (with_nextId (S (nextId w)) w)) -> preserves P fresh.
Proof. intros Hf w H. apply Hf, H. Qed.

(** The steps of a handler one by one, with [side] for what a single write,
    call or allocation has to keep. *)
Ltac preserve_with side :=
  repeat first
    [ apply preserves_bind; [|intro]
    | apply preserves_try_catch; [|intro]
    | apply preserves_forEach; intro
    | apply preserves_when_some; intro
    | apply preserves_if
    | apply preserves_ret
    | apply preserves_throw
    | apply preserves_read
    | apply preserves_lift
    | apply preserves_call_app; solve [side]
    | apply preserves_emit_app; solve [side]
    | apply preserves_fresh_next; solve [side]
    | apply preserves_write; solve [side] ].

Ltac unfold_handlers :=
  unfold stopSession, closeApiSession, stopMicrophoneStream, disconnectInputNodes,
    stopOutputAudio, stopScheduledSources, startSession, startSession_resume,
    startSession_catch, newAudioContext, sessionPromise_then,
    sessionPromise_catch, onopen, onclose, onerror, console_log, console_error,
    setIsActive, setStatus, setErrorMessage.

Lemma duration_nonneg (b : AudioBuffer) : (0 <= duration b)%Q.
Proof.
  unfold duration, bufferLength, Qle. simpl. rewrite Z.mul_1_r.
  apply Z.div_pos; lia.
Qed.

Lemma set_delete_In (x y : nat) (s : list nat) :
  In y (set_delete x s) <-> In y s /\ y <> x.
Proof.
  unfold set_delete. rewrite filter_In. split; intros [H1 H2]; split; try exact H1.
  - intros E. subst y. rewrite Nat.eqb_refl in H2. discriminate H2.
  - destruct (Nat.eqb_spec x y) as [E|E]; [subst; contradiction | reflexivity].
Qed.

Lemma set_add_fresh (x : nat) (s : list nat) :
  ~ In x s -> set_add x s = s ++ [x].
Proof.
  intros H. unfold set_add. destruct (existsb (Nat.eqb x) s) eqn:E; [|reflexivity].
  apply existsb_exists in E. destruct E as [y [Hy Hxy]].
  apply Nat.eqb_eq in Hxy. subst y. contradiction.
Qed.

Section SourcesStarted.

Variable raises : Effect -> bool.

Lemma sources_started_effect (e : Effect) (w : World) :
  sources_started w -> sources_started (with_effects (effects w ++ [e]) w).
Proof.
  intros [Hd Hs]. split; [exact Hd|]. intros s H. destruct (Hs s H) as [Hl [b [t Hi]]].
  split; [exact Hl|]. exists b, t. simpl. apply in_or_app. left. exact Hi.
Qed.

Lemma sources_started_next (w : World) :
  sources_started w -> sources_started (with_nextId (S (nextId w)) w).
Proof.
  intros [Hd Hs]. split; [exact Hd|]. intros s H. destruct (Hs s H) as [Hl Hi].
  split; [simpl; lia | exact Hi].
Qed.

Lemma sources_started_clear (w : World) :
  sources_started (with_scheduledSourcesRef [] w).
Proof. split; [constructor | intros s []]. Qed.

Lemma sources_started_delete (x : nat) (w : World) :
  sources_started w ->
  sources_started (with_scheduledSourcesRef (set_delete x (scheduledSourcesRef w)) w).
Proof.
  intros [Hd Hs]. split.
  - simpl. unfold set_delete. apply NoDup_filter. exact Hd.
  - intros s H. simpl in H. apply set_delete_In in H. apply (Hs s), H.
Qed.

Lemma sources_started_enqueued outputCtx currentTime b (w : World) :
  sources_started w -> sources_started (enqueued outputCtx currentTime b w).
Proof.
  intros [Hd Hs].
  assert (Hn : ~ In (nextId w) (scheduledSourcesRef w)).
  { intros H. destruct (Hs _ H) as [Hl _]. lia. }
  unfold enqueued, sources_started.
  cbn [scheduledSourcesRef nextId effects with_scheduledSourcesRef
       with_nextStartTimeRef with_effects with_nextId].
  rewrite set_add_fresh by exact Hn. split.
  - apply NoDup_app; [exact Hd | repeat constructor; intros [] | ].
    intros a Ha [E|[]]. subst a. contradiction.
  - intros s H. apply in_app_or in H. destruct H as [H|[H|[]]].
    + destruct (Hs s H) as [Hl [b' [t Hi]]]. split; [lia|].
      exists b', t. apply in_or_app. left. exact Hi.
    + subst s. split; [lia|]. eexists. eexists.
      apply in_or_app. right. right. left. reflexivity.
Qed.

Ltac sources_side :=
  intros ? H;
  first [ exact H
        | apply sources_started_effect; exact H
        | apply sources_started_next; exact H
        | apply sources_started_clear
        | apply sources_started_delete; exact H ].

Lemma stopSession_sources : preserves sources_started (stopSession raises).
Proof. unfold_handlers. preserve_with sources_side. Qed.

Lemma onmessage_sources currentTime message :
  preserves sources_started (onmessage raises currentTime message).
Proof.
  intros w H. destruct (outputContextRef w) as [c|] eqn:E.
  - rewrite (onmessage_eq raises currentTime message w E). cbn [snd]. cbv zeta.
    assert (Ha : sources_started (audio_handled c currentTime message w)).
    { unfold audio_handled. destruct (base64Audio message) as [[|a s]|]; try exact H.
      destruct (decodePayload (String a s)).
      - apply sources_started_effect. exact H.
      - apply sources_started_enqueued. exact H. }
    destruct (isInterrupted message); [|exact Ha].
    split; [constructor | intros s []].
  - rewrite (onmessage_closed raises currentTime message w E). exact H.
Qed.

Lemma handler_sources (ev : Event) : preserves sources_started (handler raises ev).
Proof.
  destruct ev; cbn [handler].
  - unfold button_onClick. apply preserves_bind; [apply preserves_read | intros s].
    apply preserves_if; [apply preserves_ret|].
    apply preserves_bind; [apply preserves_read | intros a].
    apply preserves_if; [apply stopSession_sources|].
    unfold_handlers. preserve_with sources_side.
  - unfold_handlers. preserve_with sources_side.
  - unfold_handlers. preserve_with sources_side.
  - unfold_handlers. preserve_with sources_side.
  - unfold_handlers. preserve_with sources_side.
  - apply onmessage_sources.
  - unfold_handlers. preserve_with sources_side.
  - unfold_handlers. preserve_with sources_side.
  - unfold onended. preserve_with sources_side.
  - apply stopSession_sources.
Qed.

Lemma run_sources (evs : list Event) (w : World) :
  sources_started w -> sources_started (run raises evs w).
Proof.
  revert w. induction evs as [|ev evs IH]; intros w H; simpl; [exact H|].
  apply IH. apply handler_sources. exact H.
Qed.

Lemma initial_sources : sources_started initial.
Proof. split; [constructor | intros s []]. Qed.

End SourcesStarted.

(** X1.  After any sequence of events, the scheduled set holds no source
    twice, and every source in it has been started: a [stop()] in the
    interruption or teardown loop never meets a source that was not
    started. *)
Theorem scheduled_sources_were_started (raises : Effect -> bool) (evs : list Event) :
  let w := run raises evs initial in
  NoDup (scheduledSourcesRef w)
  /\ forall s, In s (scheduledSourcesRef w) ->
       exists b t, In (SourceStart s b t) (effects w).
Proof.
  intros w. destruct (run_sources raises evs initial_sources) as [Hd Hs].
  split; [exact Hd|]. intros s H. apply (Hs s H).
Qed.

Lemma set_delete_last (x : nat) (s : list nat) :
  ~ In x s -> set_delete x (s ++ [x]) = s.
Proof.
  intros H. unfold set_delete. rewrite filter_app. simpl.
  rewrite Nat.eqb_refl. simpl. rewrite app_nil_r.
  induction s as [|y s IH]; [reflexivity|]. simpl.
  destruct (Nat.eqb_spec x y) as [E|E].
  - subst y. exfalso. apply H. left. reflexivity.
  - simpl. f_equal. apply IH. intros Hx. apply H. right. exact Hx.
Qed.

(** X2.  After any sequence of events, with the output context present: a
    message with a decodable payload and no interruption flag adds its
    source to the scheduled set, and when that source's [onended] fires the
    set is again what it was before the message; the [onended] of a source
    that is not in the set changes nothing. *)
Theorem ended_source_leaves_set (raises : Effect -> bool) (evs : list Event)
    (outputCtx : AudioContext) (currentTime : Q) (message : LiveServerMessage)
    (payload : string) (audioBuffer : AudioBuffer) :
  let w := run raises evs initial in
  outputContextRef w = Some outputCtx ->
  base64Audio message = Some payload ->
  payload <> EmptyString ->
  decodePayload payload = inr audioBuffer ->
  isInterrupted message = false ->
  scheduledSourcesRef (step raises w (Message currentTime message))
  = scheduledSourcesRef w ++ [nextId w]
  /\ scheduledSourcesRef
       (run raises [Message currentTime message; Ended (nextId w)] w)
     = scheduledSourcesRef w
  /\ forall other, ~ In other (scheduledSourcesRef w) ->
       step raises w (Ended other) = w.
Proof.
  intros w Hc Hp Hne Hd Hi.
  destruct (run_sources raises evs initial_sources) as [Hnd Hs]. fold w in Hnd, Hs.
  assert (Hn : ~ In (nextId w) (scheduledSourcesRef w)).
  { intros H. destruct (Hs _ H) as [Hl _]. lia. }
  assert (Hm : step raises w (Message currentTime message)
               = enqueued outputCtx currentTime audioBuffer w).
  { unfold step. cbn [handler].
    rewrite (onmessage_eq raises currentTime message w Hc). cbn [snd]. cbv zeta.
    rewrite Hi. unfold audio_handled. rewrite Hp.
    destruct payload as [|a s]; [contradiction Hne; reflexivity|].
    rewrite Hd. reflexivity. }
  split; [|split].
  - rewrite Hm. simpl. apply set_add_fresh. exact Hn.
  - cbn [run fold_left]. rewrite Hm. unfold step. cbn [handler onended write snd].
    cbn [scheduledSourcesRef enqueued with_scheduledSourcesRef].
    rewrite set_add_fresh by exact Hn. apply set_delete_last. exact Hn.
  - intros other Ho. unfold step. cbn [handler onended write snd].
    assert (E : set_delete other (scheduledSourcesRef w) = scheduledSourcesRef w).
    { unfold set_delete. clear - Ho.
      induction (scheduledSourcesRef w) as [|y l IH]; [reflexivity|]. simpl.
      destruct (Nat.eqb_spec other y) as [E|E].
      - subst y. exfalso. apply Ho. left. reflexivity.
      - simpl. f_equal. apply IH. intros H. apply Ho. right. exact H. }
    rewrite E. destruct w; reflexivity.
Qed.

Lemma ended_source_leaves_set_witness :
  scheduledSourcesRef
    (run no_raise [Message 0 (audio_message chunk None); Ended 4] (live no_raise))
  = scheduledSourcesRef (live no_raise).
Proof.
  exact (proj1 (proj2 (@ended_source_leaves_set no_raise connected_events
                         (mkAudioContext 1 24000) 0 (audio_message chunk None)
                         chunk (mkAudioBuffer 1 24000 [16384 # 32768; -16384 # 32768])
                         eq_refl eq_refl ltac:(discriminate) eq_refl eq_refl))).
Defined.

Section StartsNonneg.

Variable raises : Effect -> bool.

Lemma starts_nonneg_effect (e : Effect) (w : World) :
  (forall s b t, e <> SourceStart s b t) ->
  starts_nonneg w -> starts_nonneg (with_effects (effects w ++ [e]) w).
Proof.
  intros He [Hc Hs]. split; [exact Hc|]. intros s b t H. simpl in H.
  apply in_app_or in H. destruct H as [H|[H|[]]]; [apply (Hs s b t H)|].
  exfalso. apply (He s b t H).
Qed.

Lemma starts_nonneg_reset (w : World) :
  starts_nonneg w -> starts_nonneg (with_nextStartTimeRef 0%Q w).
Proof. intros [_ Hs]. split; [apply Qle_refl | exact Hs]. Qed.

Lemma starts_nonneg_enqueued outputCtx currentTime b (w : World) :
  starts_nonneg w -> starts_nonneg (enqueued outputCtx currentTime b w).
Proof.
  intros [Hc Hs].
  assert (Ht : (0 <= startAt currentTime (nextStartTimeRef w))%Q).
  { eapply Qle_trans; [exact Hc | apply startAt_max]. }
  split.
  - simpl. rewrite <- (Qplus_0_r 0). apply Qplus_le_compat;
      [exact Ht | apply duration_nonneg].
  - intros s b' t H. simpl in H. apply in_app_or in H.
    destruct H as [H|[H|[H|[]]]]; [apply (Hs s b' t H) | discriminate H |].
    inversion H; subst. exact Ht.
Qed.

Ltac starts_side :=
  intros ? H;
  first [ exact H
        | apply starts_nonneg_effect; [intros; discriminate | exact H]
        | apply starts_nonneg_reset; exact H ].

Lemma stopSession_starts : preserves starts_nonneg (stopSession raises).
Proof. unfold_handlers. preserve_with starts_side. Qed.

Lemma onmessage_starts currentTime message :
  preserves starts_nonneg (onmessage raises currentTime message).
Proof.
  intros w H. destruct (outputContextRef w) as [c|] eqn:E.
  - rewrite (onmessage_eq raises currentTime message w E). cbn [snd]. cbv zeta.
    assert (Ha : starts_nonneg (audio_handled c currentTime message w)).
    { unfold audio_handled. destruct (base64Audio message) as [[|a s]|]; try exact H.
      destruct (decodePayload (String a s)).
      - apply starts_nonneg_effect; [intros; discriminate | exact H].
      - apply starts_nonneg_enqueued. exact H. }
    destruct (isInterrupted message); [|exact Ha].
    destruct Ha as [_ Hs]. split; [apply Qle_refl|].
    intros s b t Hi. simpl in Hi. apply in_app_or in Hi.
    destruct Hi as [Hi|[Hi|Hi]]; [apply (Hs s b t Hi) | discriminate Hi |].
    unfold stop_effects in Hi. apply in_map_iff in Hi.
    destruct Hi as [x [Hx _]]. discriminate Hx.
  - rewrite (onmessage_closed raises currentTime message w E). exact H.
Qed.

Lemma handler_starts (ev : Event) : preserves starts_nonneg (handler raises ev).
Proof.
  destruct ev; cbn [handler].
  - unfold button_onClick. apply preserves_bind; [apply preserves_read | intros s].
    apply preserves_if; [apply preserves_ret|].
    apply preserves_bind; [apply preserves_read | intros a].
    apply preserves_if; [apply stopSession_starts|].
    unfold_handlers. preserve_with starts_side.
  - unfold_handlers. preserve_with starts_side.
  - unfold_handlers. preserve_with starts_side.
  - unfold_handlers. preserve_with starts_side.
  - unfold_handlers. preserve_with starts_side.
  - apply onmessage_starts.
  - unfold_handlers. preserve_with starts_side.
  - unfold_handlers. preserve_with starts_side.
  - unfold onended. preserve_with starts_side.
  - apply stopSession_starts.
Qed.

Lemma run_starts (evs : list Event) (w : World) :
  starts_nonneg w -> starts_nonneg (run raises evs w).
Proof.
  revert w. induction evs as [|ev evs IH]; intros w H; simpl; [exact H|].
  apply IH. apply handler_starts. exact H.
Qed.

Lemma initial_starts : starts_nonneg initial.
Proof. split; [apply Qle_refl | intros s b t []]. Qed.

End StartsNonneg.

(** X3.  After any sequence of events, whatever clock readings the messages
    brought, the cursor is not negative and no source was ever started at a
    negative time. *)
Theorem start_times_never_negative (raises : Effect -> bool) (evs : list Event) :
  let w := run raises evs initial in
  (0 <= nextStartTimeRef w)%Q
  /\ forall s b t, In (SourceStart s b t) (effects w) -> (0 <= t)%Q.
Proof. intros w. exact (run_starts raises evs initial_starts). Qed.

(* ================================================================== *)
(** ** More about the session: scheduling, late messages, lifecycle *)
(* ================================================================== *)






Lemma run_deliveries_closed raises msgs (w : World) :
  outputContextRef w = None -> run raises (deliveries msgs) w = w.
Proof.
  intros H. induction msgs as [|[now m] msgs IH]; [reflexivity|].
  change (run raises (deliveries ((now, m) :: msgs)) w)
    with (run raises (deliveries msgs) (step raises w (Message now m))).
  unfold step. cbn [handler]. rewrite (onmessage_closed raises now m w H).
  exact IH.
Qed.

Section RemoteEnd.

Variable raises : Effect -> bool.
Hypothesis platform : release_total raises.

Lemma onclose_eq (w : World) :
  onclose raises w
  = (Normal tt,
     torn_down raises
       (with_effects (effects w ++ [ConsoleLog "Live session closed"]) w)).
Proof.
  unfold onclose, console_log, emit. unfold bind at 1, write at 1.
  apply (stopSession_total platform).
Qed.

Lemma onerror_eq (w : World) :
  onerror raises w
  = (Normal tt,
     with_status Error
       (torn_down raises
          (with_errorMessage (Some "Connection error occurred."%string)
             (with_effects (effects w ++ [ConsoleError "Live session error"]) w)))).
Proof.
  unfold onerror, console_error, emit, setErrorMessage.
  unfold bind at 1, write at 1. unfold bind at 1, write at 1.
  erewrite bind_normal by apply (stopSession_total platform).
  reflexivity.
Qed.

End RemoteEnd.

(** X5.  When the calls that [stopSession] does not guard keep the
    platform's contract: once the session has been torn down — by the
    unmount cleanup, by the remote close or by the remote error, from any
    component state — messages that still arrive (audio, interruption or
    both, any number of them) change nothing and make no call. *)
Theorem late_messages_are_ignored (raises : Effect -> bool) (w : World)
    (msgs : list (Q * LiveServerMessage)) :
  release_total raises ->
  run raises (Unmount :: deliveries msgs) w = step raises w Unmount
  /\ run raises (Closed :: deliveries msgs) w = step raises w Closed
  /\ run raises (Failed :: deliveries msgs) w = step raises w Failed.
Proof.
  intros H.
  assert (G : forall ev, outputContextRef (step raises w ev) = None ->
                run raises (ev :: deliveries msgs) w = step raises w ev).
  { intros ev Hc.
    change (run raises (ev :: deliveries msgs) w)
      with (run raises (deliveries msgs) (step raises w ev)).
    apply run_deliveries_closed. exact Hc. }
  repeat split; apply G; unfold step; cbn [handler].
  - rewrite (stopSession_total H). reflexivity.
  - rewrite (onclose_eq H). reflexivity.
  - rewrite (onerror_eq H). reflexivity.
Qed.

Lemma late_messages_are_ignored_witness :
  run no_raise [Closed; Message 0 (audio_message chunk (Some true))] (live no_raise)
  = step no_raise (live no_raise) Closed.
Proof.
  exact (proj1 (proj2 (@late_messages_are_ignored no_raise (live no_raise)
                         [(0, audio_message chunk (Some true))] no_raise_total))).
Defined.

(** X6.  When the calls that [stopSession] does not guard keep the
    platform's contract, the remote close and the remote error, from any
    component state, release everything the component holds, making the
    calls of a teardown after their log line.  The close leaves the status
    Disconnected and the error message as it was; the error leaves the
    status Error and the message "Connection error occurred."; neither
    leaves the session active. *)
Theorem remote_end_tears_down (raises : Effect -> bool) (w : World) :
  release_total raises ->
  (exists w',
     onclose raises w = (Normal tt, w')
     /\ holds_nothing w'
     /\ status w' = Disconnected /\ isActive w' = false
     /\ errorMessage w' = errorMessage w
     /\ nextStartTimeRef w' = 0%Q
     /\ effects w'
        = effects w ++ ConsoleLog "Live session closed" :: teardown_effects raises w)
  /\ (exists w',
        onerror raises w = (Normal tt, w')
        /\ holds_nothing w'
        /\ status w' = Error /\ isActive w' = false
        /\ errorMessage w' = Some "Connection error occurred."%string
        /\ nextStartTimeRef w' = 0%Q
        /\ effects w'
           = effects w ++ ConsoleError "Live session error" :: teardown_effects raises w).
Proof.
  intros H. split.
  - eexists. split; [apply (onclose_eq H)|].
    split; [repeat split|]. repeat split.
    simpl. rewrite <- app_assoc. reflexivity.
  - eexists. split; [apply (onerror_eq H)|].
    split; [repeat split|]. repeat split.
    simpl. rewrite <- app_assoc. reflexivity.
Qed.

Lemma remote_end_tears_down_witness :
  exists w',
    onerror no_raise (live no_raise) = (Normal tt, w')
    /\ holds_nothing w' /\ status w' = Error.
Proof.
  destruct (proj2 (@remote_end_tears_down no_raise (live no_raise) no_raise_total))
    as [w' [H [Hn [Hs _]]]].
  exists w'. repeat split; try exact H; try exact Hs; apply Hn.
Defined.

Lemma button_starts (raises : Effect -> bool) (w : World) :
  status w <> Connecting -> isActive w = false ->
  button_onClick raises w = startSession raises w.
Proof.
  intros Hs Ha. unfold button_onClick, bind, read.
  destruct (Status_eqb (status w) Connecting) eqn:E.
  - apply Status_eqb_eq in E. contradiction.
  - rewrite Ha. reflexivity.
Qed.

Lemma button_stops (raises : Effect -> bool) (w : World) :
  status w <> Connecting -> isActive w = true ->
  button_onClick raises w = stopSession raises w.
Proof.
  intros Hs Ha. unfold button_onClick, bind, read.
  destruct (Status_eqb (status w) Connecting) eqn:E.
  - apply Status_eqb_eq in E. contradiction.
  - rewrite Ha. reflexivity.
Qed.

Lemma startSession_resume_granted (raises : Effect -> bool) (stream : MediaStream)
    (w : World) :
  raises LiveConnect = false ->
  startSession_resume raises (Some stream) w
  = (Normal tt, with_effects (effects w ++ [LiveConnect]) (with_streamRef (Some stream) w)).
Proof.
  intros H. unfold startSession_resume, try_catch, bind, lift, ret, write, call.
  rewrite H. reflexivity.
Qed.

(** X7.  A start whose microphone request is refused, from any state in
    which the control starts a session and with the audio contexts created
    without a throw: the status ends Error with the start-failure message,
    the component is not active (so the control offers start again), no
    stream is taken and the connect call is never made; the two contexts
    created for the attempt stay in the refs, unclosed. *)
Theorem refused_microphone_never_connects (raises : Effect -> bool) (w : World) :
  status w <> Connecting ->
  isActive w = false ->
  (forall c, raises (ContextNew c) = false) ->
  let w' := run raises [Click; MediaResult None] w in
  let inputCtx := mkAudioContext (nextId w) 16000 in
  let outputCtx := mkAudioContext (S (nextId w)) 24000 in
  status w' = Error
  /\ isActive w' = false
  /\ errorMessage w' = Some "Microphone access denied or API unavailable."%string
  /\ streamRef w' = streamRef w
  /\ sessionRef w' = sessionRef w
  /\ inputContextRef w' = Some inputCtx
  /\ outputContextRef w' = Some outputCtx
  /\ effects w' = effects w ++ [ContextNew inputCtx; ContextNew outputCtx;
                                ConsoleError "Failed to start session:"].
Proof.
  intros Hs Ha Hr.
  assert (E : step raises w Click = snd (startSession raises w)).
  { unfold step. cbn [handler]. rewrite (button_starts raises w Hs Ha). reflexivity. }
  cbv zeta. cbn [run fold_left]. rewrite E, (startSession_eq raises w Hr).
  cbn [snd]. cbv zeta. unfold step. cbn [handler].
  unfold startSession_resume, try_catch, bind, lift, throw, startSession_catch,
    console_error, emit, setErrorMessage, setStatus, write.
  cbn [snd]. repeat split; try exact Ha.
  simpl. rewrite <- app_assoc. reflexivity.
Qed.

Lemma refused_microphone_never_connects_witness :
  status (run no_raise [Click; MediaResult None] initial) = Error
  /\ ~ In LiveConnect (effects (run no_raise [Click; MediaResult None] initial)).
Proof.
  destruct (@refused_microphone_never_connects no_raise initial)
    as (H1 & _ & _ & _ & _ & _ & _ & H8).
  - discriminate.
  - reflexivity.
  - reflexivity.
  - split; [exact H1|]. rewrite H8. simpl.
    intros H. repeat (destruct H as [H|H]; [discriminate H|]). exact H.
Defined.

(** X8.  A whole session — start, microphone granted, session resolved and
    opened, then stop — from a component that holds nothing, with start-up
    calls that succeed and the platform's contract for the releases: the
    component again holds nothing and is Disconnected, and the calls made
    pair every acquisition with its release: both contexts created are
    closed, both input nodes connected are disconnected, every track of the
    stream is stopped and the session is closed (or its close failure
    logged). *)
Theorem session_releases_what_it_acquired (raises : Effect -> bool) (w : World)
    (stream : MediaStream) (session : nat) :
  startup_total raises ->
  release_total raises ->
  holds_nothing w ->
  status w <> Connecting ->
  isActive w = false ->
  let n := nextId w in
  let inputCtx := mkAudioContext n 16000 in
  let outputCtx := mkAudioContext (S n) 24000 in
  let w' := run raises [Click; MediaResult (Some stream); ConnectResolved session;
                        Open inputCtx stream; Click] w in
  holds_nothing w'
  /\ status w' = Disconnected
  /\ isActive w' = false
  /\ effects w'
     = effects w
       ++ [ContextNew inputCtx; ContextNew outputCtx; LiveConnect;
           ConsoleLog "Live session opened";
           NodeConnect (S (S n)) (ToNode (S (S (S n))));
           NodeConnect (S (S (S n))) (ToDestination n);
           if raises (SessionClose session)
           then ConsoleError "Error closing session"
           else SessionClose session]
       ++ map TrackStop (getTracks stream)
       ++ [NodeDisconnect (S (S n)); NodeDisconnect (S (S (S n)));
           ContextClose n; ContextClose (S n)].
Proof.
  intros [Hnew Hconn] Hrel Hn Hs Ha. cbv zeta.
  set (evs := [Click; MediaResult (Some stream); ConnectResolved session;
               Open (mkAudioContext (nextId w) 16000) stream; Click]).
  assert (E1 : step raises w Click = snd (startSession raises w)).
  { unfold step. cbn [handler]. rewrite (button_starts raises w Hs Ha). reflexivity. }
  assert (E : exists w4,
             run raises evs w = torn_down raises w4
             /\ effects w4
                = effects w
                  ++ [ContextNew (mkAudioContext (nextId w) 16000);
                      ContextNew (mkAudioContext (S (nextId w)) 24000);
                      LiveConnect; ConsoleLog "Live session opened";
                      NodeConnect (S (S (nextId w))) (ToNode (S (S (S (nextId w)))));
                      NodeConnect (S (S (S (nextId w)))) (ToDestination (nextId w))]
             /\ sessionRef w4 = Some session
             /\ streamRef w4 = Some stream
             /\ sourceRef w4 = Some (S (S (nextId w)))
             /\ processorRef w4 = Some (S (S (S (nextId w))))
             /\ inputContextRef w4 = Some (mkAudioContext (nextId w) 16000)
             /\ outputContextRef w4 = Some (mkAudioContext (S (nextId w)) 24000)
             /\ scheduledSourcesRef w4 = scheduledSourcesRef w).
  { eexists. split.
    - unfold evs. cbn [run fold_left]. rewrite E1, (startSession_eq raises w Hnew).
      cbn [snd]. cbv zeta. unfold step at 4. cbn [handler].
      rewrite (startSession_resume_granted raises stream _ Hconn). cbn [snd].
      unfold step at 3. cbn [handler sessionPromise_then write snd].
      unfold step at 2. cbn [handler].
      unfold onopen at 1, console_log, emit, setStatus, setIsActive, bind, write, fresh.
      cbn [snd]. unfold step. cbn [handler].
      rewrite button_stops; [| discriminate | reflexivity].
      rewrite (stopSession_total Hrel). cbn [snd]. reflexivity.
    - simpl. repeat rewrite <- app_assoc. simpl. repeat split. }
  destruct E as (w4 & E & Ee & R1 & R2 & R3 & R4 & R5 & R6 & R7).
  rewrite E.
  destruct Hn as (H1 & H2 & H3 & H4 & H5 & H6 & H7).
  split; [repeat split|]. split; [reflexivity|]. split; [reflexivity|].
  unfold torn_down, teardown_effects. cbn [effects].
  rewrite Ee, R1, R2, R3, R4, R5, R6, R7, H7. unfold opt_list, stop_effects.
  cbn [ctxId map filter app]. repeat rewrite <- app_assoc. reflexivity.
Qed.

Lemma session_releases_what_it_acquired_witness :
  holds_nothing
    (run no_raise [Click; MediaResult (Some mic); ConnectResolved 200;
                   Open (mkAudioContext 0 16000) mic; Click] initial).
Proof.
  apply (@session_releases_what_it_acquired no_raise initial mic 200).
  - split; reflexivity.
  - exact no_raise_total.
  - repeat split.
  - discriminate.
  - reflexivity.
Defined.

(* ================================================================== *)
(** ** The service *)
(* ================================================================== *)

(** A part that carries inline data the image loop accepts. *)
Lemma firstImage_skips (pre : list GenAI.Part) (rest : list GenAI.Part) :
  Forall (fun p => truthy (opt_bind (GenAI.inlineData p) GenAI.data) = false) pre ->
  GenAI.firstImage (pre ++ rest) = GenAI.firstImage rest.
Proof.
  induction 1 as [|p pre Hp Hpre IH]; [reflexivity|]. simpl.
  destruct (GenAI.inlineData p) as [blob|]; simpl in Hp; [|exact IH].
  rewrite Hp. exact IH.
Qed.


(** X9.  [generateImage] answers with the first part of the first candidate
    that has inline data, whatever comes before or after it: parts without
    data are passed over, the URI is [data:<mime>;base64,<data>], and a
    missing or empty mime type reads [image/png].  Nothing is logged. *)
Theorem generateImage_takes_first_image (response : GenAI.GenerateContentResponse)
    (pre post : list GenAI.Part) (mime : option jsstring) (c : N) (d : jsstring) :
  GenAI.firstCandidateParts response
  = Some (pre ++ GenAI.mkPart (Some (GenAI.mkBlob mime (Some (c :: d)))) None :: post) ->
  Forall (fun p => truthy (opt_bind (GenAI.inlineData p) GenAI.data) = false) pre ->
  GenAI.generateImage (inr response)
  = ([], inr (js "data:" ++ or_default mime (js "image/png")
              ++ js ";base64," ++ c :: d)).
Proof.
  intros Hp Hpre. unfold GenAI.generateImage. rewrite Hp. cbn [opt_bind].
  rewrite (firstImage_skips _ Hpre). reflexivity.
Qed.

Lemma generateImage_takes_first_image_witness :
  GenAI.generateImage
    (inr (GenAI.mkResponse
            (Some [GenAI.mkCandidate (Some (GenAI.mkContent (Some
               [GenAI.mkPart None (Some (js "here it is"));
                GenAI.mkPart (Some (GenAI.mkBlob None (Some (js "QUJD")))) None;
                GenAI.mkPart (Some (GenAI.mkBlob (Some (js "image/jpeg"))
                                      (Some (js "REVG")))) None])))])
            None))
  = ([], inr (js "data:image/png;base64,QUJD")).
Proof.
  apply (@generateImage_takes_first_image _
           [GenAI.mkPart None (Some (js "here it is"))]
           [GenAI.mkPart (Some (GenAI.mkBlob (Some (js "image/jpeg"))
                                  (Some (js "REVG")))) None]
           None 81%N (js "UJD")).
  - reflexivity.
  - repeat constructor.
Defined.


(** X11.  [generateText] never answers with the empty string: an absent or
    empty response text reads "No response text generated.".  A failed call
    is logged once and thrown on unchanged; an answer logs nothing. *)
Theorem generateText_never_empty
    (answer : GenAI.Error + GenAI.GenerateContentResponse) :
  match GenAI.generateText answer with
  | (logs, inl e) => logs = [GenAI.mkLog "Error generating text:" e] /\ answer = inl e
  | (logs, inr t) =>
      logs = [] /\ t <> []
      /\ exists response,
           answer = inr response
           /\ (truthy (GenAI.responseText response) = true ->
               GenAI.responseText response = Some t)
           /\ (truthy (GenAI.responseText response) = false ->
               t = js "No response text generated.")
  end.
Proof.
  unfold GenAI.generateText. destruct answer as [e|response]; simpl.
  - split; reflexivity.
  - split; [reflexivity|]. split.
    + destruct (GenAI.responseText response) as [[|c s]|]; simpl; discriminate.
    + exists response. split; [reflexivity|].
      destruct (GenAI.responseText response) as [[|c s]|]; simpl;
        split; intros H; try discriminate H; reflexivity.
Qed.

(* ================================================================== *)
(** ** ImageGenView *)
(* ================================================================== *)

Lemma firstImage_uri (ps : list GenAI.Part) (uri : jsstring) :
  GenAI.firstImage ps = Some uri -> exists rest, uri = js "data:" ++ rest.
Proof.
  induction ps as [|p ps IH]; [discriminate|]. simpl. intros F.
  destruct (GenAI.inlineData p) as [blob|]; [|exact (IH F)].
  destruct (truthy (GenAI.data blob)); [|exact (IH F)].
  inversion F. eexists. reflexivity.
Qed.

Lemma generateImage_uri answer logs (uri : jsstring) :
  GenAI.generateImage answer = (logs, inr uri) -> exists rest, uri = js "data:" ++ rest.
Proof.
  unfold GenAI.generateImage. destruct answer as [e|response]; simpl; [discriminate|].
  destruct (GenAI.firstCandidateParts response) as [ps|]; simpl; [|discriminate].
  destruct (GenAI.firstImage ps) as [u|] eqn:F; simpl; [|discriminate].
  intros H. inversion H; subst. apply (firstImage_uri _ F).
Qed.

Lemma imagegen_step_consistent (s : ImageGen.State) (ev : ImageGen.Event) :
  imagegen_consistent s -> imagegen_consistent (ImageGen.step s ev).
Proof.
  intros Hc. pose proof Hc as (L & P & C & H).
  destruct ev as [value| |answer now|index]; simpl.
  - exact Hc.
  - unfold ImageGen.handleGenerate.
    destruct (blank (ImageGen.promptInput s)) eqn:B; simpl; [exact Hc|].
    destruct (ImageGen.isLoading s) eqn:E; simpl; [exact Hc|].
    split; [split; [discriminate | reflexivity]|].
    split; [intros p Hp; inversion Hp; subst; exact B|].
    split; [exact C | exact H].
  - destruct (ImageGen.pending s) as [captured|] eqn:Ep; [|exact Hc].
    unfold ImageGen.handleGenerate_resume.
    destruct (GenAI.generateImage answer) as [logs [e|uri]] eqn:G; simpl.
    + split; [split; [discriminate | intros F; contradiction F; reflexivity]|].
      split; [discriminate|]. split; [exact C | exact H].
    + split; [split; [discriminate | intros F; contradiction F; reflexivity]|].
      split; [discriminate|]. split.
      * intros img Hi. inversion Hi; subst. left. reflexivity.
      * constructor; [|exact H]. simpl. split; [apply P; reflexivity|].
        apply (generateImage_uri _ G).
  - destruct (nth_error (ImageGen.history s) index) as [img|] eqn:N; [|exact Hc].
    split; [exact L|]. split; [exact P|]. split; [|exact H].
    intros img' Hi. inversion Hi; subst. apply (nth_error_In _ _ N).
Qed.

(** X12.  In [ImageGenView], after any sequence of events: the loading flag
    is up exactly while a request is out (there is never more than one);
    the image on display is one of the history; and every image of the
    history has a [data:] URI and the prompt it was asked with, which is
    not blank. *)
Theorem imagegen_always_consistent (evs : list ImageGen.Event) :
  let s := ImageGen.run evs ImageGen.initial in
  (ImageGen.isLoading s = true <-> ImageGen.pending s <> None)
  /\ (forall img, ImageGen.currentImage s = Some img -> In img (ImageGen.history s))
  /\ Forall (fun img =>
       blank (ImageGen.prompt img) = false
       /\ exists rest, ImageGen.url img = js "data:" ++ rest)
       (ImageGen.history s).
Proof.
  assert (G : forall s, imagegen_consistent s ->
                imagegen_consistent (ImageGen.run evs s)).
  { induction evs as [|ev evs IH]; intros s H; simpl; [exact H|].
    apply IH, imagegen_step_consistent, H. }
  destruct (G ImageGen.initial) as (L & _ & C & H).
  - split; [split; [discriminate | intros F; contradiction F; reflexivity]|].
    split; [discriminate|]. split; [discriminate | constructor].
  - intros s. split; [exact L|]. split; [exact C | exact H].
Qed.

(** X13.  In [ImageGenView] the history is only ever added to, at its head:
    whatever happens, the history before is the tail end of the history
    after. *)
Theorem imagegen_history_only_grows (evs : list ImageGen.Event) (s : ImageGen.State) :
  exists newer,
    ImageGen.history (ImageGen.run evs s) = newer ++ ImageGen.history s.
Proof.
  revert s. induction evs as [|ev evs IH]; intros s; [exists []; reflexivity|].
  simpl. destruct (IH (ImageGen.step s ev)) as [newer E]. rewrite E.
  assert (H : exists one,
             ImageGen.history (ImageGen.step s ev) = one ++ ImageGen.history s).
  { destruct ev as [value| |answer now|index]; simpl.
    - exists []. reflexivity.
    - unfold ImageGen.handleGenerate.
      destruct (blank (ImageGen.promptInput s) || ImageGen.isLoading s);
        exists []; reflexivity.
    - destruct (ImageGen.pending s) as [captured|]; [|exists []; reflexivity].
      unfold ImageGen.handleGenerate_resume.
      destruct (GenAI.generateImage answer) as [logs [e|uri]]; simpl.
      + exists []. reflexivity.
      + eexists [_]. reflexivity.
    - destruct (nth_error (ImageGen.history s) index); exists []; reflexivity. }
  destruct H as [one H]. rewrite H. exists (newer ++ one).
  rewrite app_assoc. reflexivity.
Qed.

Lemma imagegen_waiting_run (evs : list ImageGen.Event) (s : ImageGen.State) :
  Forall (fun ev => imagegen_waiting ev = true) evs ->
  ImageGen.isLoading s = true ->
  let s' := ImageGen.run evs s in
  ImageGen.isLoading s' = true
  /\ ImageGen.pending s' = ImageGen.pending s
  /\ ImageGen.history s' = ImageGen.history s
  /\ ImageGen.currentImage s' = ImageGen.currentImage s
  /\ ImageGen.error s' = ImageGen.error s
  /\ ImageGen.console s' = ImageGen.console s.
Proof.
  intros Hf. revert s. induction Hf as [|ev evs Hev Hf IH]; intros s L; simpl.
  - repeat split; assumption.
  - assert (Hs : ImageGen.isLoading (ImageGen.step s ev) = true
                 /\ ImageGen.pending (ImageGen.step s ev) = ImageGen.pending s
                 /\ ImageGen.history (ImageGen.step s ev) = ImageGen.history s
                 /\ ImageGen.currentImage (ImageGen.step s ev) = ImageGen.currentImage s
                 /\ ImageGen.error (ImageGen.step s ev) = ImageGen.error s
                 /\ ImageGen.console (ImageGen.step s ev) = ImageGen.console s).
    { destruct ev; try discriminate Hev; simpl.
      - repeat split; assumption.
      - unfold ImageGen.handleGenerate. rewrite L, orb_true_r.
        repeat split; assumption. }
    destruct Hs as (S1 & S2 & S3 & S4 & S5 & S6).
    destruct (IH _ S1) as (I1 & I2 & I3 & I4 & I5 & I6).
    repeat split; congruence.
Qed.

(** X14.  One request of [ImageGenView], from a state that is not loading
    and has a prompt that is not blank: while the request is out, further
    clicks on generate are ignored and edits of the prompt do not reach it.
    When the answer comes, the loading flag goes down; if the service gives
    an image, it is put at the head of the history and on display, with the
    prompt as it was when generate was clicked; if the service throws, the
    history and the display stay as they were and the error message is
    set. *)
Theorem imagegen_request_round (s : ImageGen.State) (evs : list ImageGen.Event)
    (answer : GenAI.Error + GenAI.GenerateContentResponse) (now : Z) :
  blank (ImageGen.promptInput s) = false ->
  ImageGen.isLoading s = false ->
  Forall (fun ev => imagegen_waiting ev = true) evs ->
  let s' := ImageGen.run (ImageGen.Generate :: evs ++ [ImageGen.Answered answer now]) s in
  ImageGen.isLoading s' = false
  /\ ImageGen.pending s' = None
  /\ match snd (GenAI.generateImage answer) with
     | inr uri =>
         let newImage := ImageGen.mkImage uri (ImageGen.promptInput s) now in
         ImageGen.history s' = newImage :: ImageGen.history s
         /\ ImageGen.currentImage s' = Some newImage
         /\ ImageGen.error s' = None
     | inl _ =>
         ImageGen.history s' = ImageGen.history s
         /\ ImageGen.currentImage s' = ImageGen.currentImage s
         /\ ImageGen.error s'
            = Some (js "Failed to generate image. Please try a different prompt or try again later.")
     end.
Proof.
  intros B L Hf. cbv zeta.
  change (ImageGen.run (ImageGen.Generate :: evs ++ [ImageGen.Answered answer now]) s)
    with (ImageGen.run (evs ++ [ImageGen.Answered answer now])
            (ImageGen.step s ImageGen.Generate)).
  set (s1 := ImageGen.step s ImageGen.Generate).
  unfold ImageGen.run. rewrite fold_left_app.
  change (fold_left ImageGen.step evs s1) with (ImageGen.run evs s1).
  assert (E1 : s1 = ImageGen.mkState (ImageGen.promptInput s) true (ImageGen.history s)
                      (ImageGen.currentImage s) None (Some (ImageGen.promptInput s))
                      (ImageGen.console s)).
  { unfold s1. simpl. unfold ImageGen.handleGenerate. rewrite B, L. reflexivity. }
  destruct (@imagegen_waiting_run evs s1 Hf) as (I1 & I2 & I3 & I4 & I5 & I6).
  { rewrite E1. reflexivity. }
  assert (P1 : ImageGen.pending s1 = Some (ImageGen.promptInput s))
    by (rewrite E1; reflexivity).
  assert (H1 : ImageGen.history s1 = ImageGen.history s) by (rewrite E1; reflexivity).
  assert (C1 : ImageGen.currentImage s1 = ImageGen.currentImage s)
    by (rewrite E1; reflexivity).
  assert (R1 : ImageGen.error s1 = None) by (rewrite E1; reflexivity).
  clearbody s1.
  cbn [fold_left ImageGen.step]. rewrite I2, P1.
  unfold ImageGen.handleGenerate_resume.
  destruct (GenAI.generateImage answer) as [logs [e|uri]]; simpl;
    repeat split; congruence.
Qed.

Lemma imagegen_request_round_witness :
  ImageGen.isLoading
    (ImageGen.run
       [ImageGen.SetPrompt (js "a cat"); ImageGen.Generate; ImageGen.Generate;
        ImageGen.SetPrompt (js "a dog"); ImageGen.Answered (inl (GenAI.ApiError 500)) 7]
       ImageGen.initial)
  = false.
Proof.
  exact (proj1 (@imagegen_request_round
                  (ImageGen.step ImageGen.initial (ImageGen.SetPrompt (js "a cat")))
                  [ImageGen.Generate; ImageGen.SetPrompt (js "a dog")]
                  (inl (GenAI.ApiError 500)) 7 eq_refl eq_refl
                  ltac:(repeat constructor))).
Defined.

(* ================================================================== *)
(** ** ChatView *)
(* ================================================================== *)

Lemma exchanges_extend (l : list Chat.Role) :
  (Chat.exchanges l false -> Chat.exchanges (l ++ [Chat.User]) true)
  /\ (Chat.exchanges l true -> Chat.exchanges (l ++ [Chat.Model]) false).
Proof.
  assert (G : forall l,
             ((Chat.exchanges l false -> Chat.exchanges (l ++ [Chat.User]) true)
              /\ (Chat.exchanges l true -> Chat.exchanges (l ++ [Chat.Model]) false))
             /\ forall a,
                  ((Chat.exchanges (a :: l) false ->
                    Chat.exchanges ((a :: l) ++ [Chat.User]) true)
                   /\ (Chat.exchanges (a :: l) true ->
                       Chat.exchanges ((a :: l) ++ [Chat.Model]) false))).
  { clear l. induction l as [|c l [IH1 IH2]].
    - split; [split; simpl; [reflexivity | discriminate]|].
      intros a. destruct a; simpl; split; intros H;
        try contradiction; try reflexivity; discriminate H.
    - split; [apply IH2|].
      intros a. destruct a, c; cbn [app Chat.exchanges];
        try (split; intros H; contradiction).
      exact IH1. }
  apply G.
Qed.

Lemma chat_step_consistent (mounted : Z) (s : Chat.State) (ev : Chat.Event) :
  chat_consistent mounted s -> chat_consistent mounted (Chat.step s ev).
Proof.
  intros Hc. pose proof Hc as ([rest [Hm Hx]] & L & P).
  destruct ev as [value|result| |now_id now_ts|answer now_id now_ts]; simpl;
    try exact Hc.
  - unfold Chat.handleSendMessage.
    destruct (blank (Chat.inputValue s) && negb (truthy (Chat.selectedImage s)));
      simpl; [exact Hc|].
    destruct (Chat.isLoading s) eqn:E; simpl; [exact Hc|].
    split; [|split].
    + eexists. simpl. split; [rewrite Hm; reflexivity|].
      rewrite map_app. apply exchanges_extend. exact Hx.
    + split; [discriminate | reflexivity].
    + intros m Hp. inversion Hp; subst. eexists. reflexivity.
  - destruct (Chat.pending s) as [m|] eqn:Ep; [|exact Hc].
    assert (E : Chat.isLoading s = true) by (apply L; discriminate).
    rewrite E in Hx.
    unfold Chat.handleSendMessage_resume.
    destruct (GenAI.generateText answer) as [logs [e|t]]; simpl.
    + split; [|split].
      * eexists. simpl. split; [rewrite Hm; reflexivity|].
        rewrite map_app. apply exchanges_extend. exact Hx.
      * split; [discriminate | intros F; contradiction F; reflexivity].
      * discriminate.
    + split; [|split].
      * eexists. simpl. split; [rewrite Hm; reflexivity|].
        rewrite map_app. apply exchanges_extend. exact Hx.
      * split; [discriminate | intros F; contradiction F; reflexivity].
      * discriminate.
Qed.

(** X15.  In [ChatView], after any sequence of events: the conversation
    opens with the welcome message and goes on in turns, every question of
    the user followed by one reply of the model, the last question alone
    being unanswered exactly while the loading flag is up; the flag is up
    exactly while a request is out, and the question of that request is the
    last message. *)
Theorem chat_always_in_turns (mounted : Z) (evs : list Chat.Event) :
  let s := Chat.run evs (Chat.initial mounted) in
  (exists rest,
     Chat.messages s
     = Chat.mkMsg Chat.Welcome Chat.Model Chat.welcome_text None mounted false :: rest
     /\ Chat.exchanges (map Chat.role rest) (Chat.isLoading s))
  /\ (Chat.isLoading s = true <-> Chat.pending s <> None)
  /\ (forall m, Chat.pending s = Some m ->
        exists front, Chat.messages s = front ++ [m]).
Proof.
  assert (G : forall s, chat_consistent mounted s ->
                chat_consistent mounted (Chat.run evs s)).
  { induction evs as [|ev evs IH]; intros s H; simpl; [exact H|].
    apply IH, chat_step_consistent, H. }
  apply (G (Chat.initial mounted)).
  split; [|split].
  - exists []. split; reflexivity.
  - split; [discriminate | intros F; contradiction F; reflexivity].
  - discriminate.
Qed.

(** X16.  In [ChatView] no message is ever removed or changed: whatever
    happens, the messages before are the beginning of the messages
    after. *)
Theorem chat_messages_only_grow (evs : list Chat.Event) (s : Chat.State) :
  exists newer, Chat.messages (Chat.run evs s) = Chat.messages s ++ newer.
Proof.
  revert s. induction evs as [|ev evs IH]; intros s.
  - exists []. simpl. symmetry. apply app_nil_r.
  - simpl. destruct (IH (Chat.step s ev)) as [newer E]. rewrite E.
    assert (H : exists one, Chat.messages (Chat.step s ev) = Chat.messages s ++ one).
    { destruct ev as [value|result| |now_id now_ts|answer now_id now_ts]; simpl;
        try (exists []; symmetry; apply app_nil_r).
      - unfold Chat.handleSendMessage.
        destruct (blank (Chat.inputValue s) && negb (truthy (Chat.selectedImage s))
                  || Chat.isLoading s);
          [exists []; symmetry; apply app_nil_r | eexists; reflexivity].
      - destruct (Chat.pending s); [|exists []; symmetry; apply app_nil_r].
        unfold Chat.handleSendMessage_resume.
        destruct (GenAI.generateText answer) as [logs r]. eexists. reflexivity. }
    destruct H as [one H]. rewrite H. exists (one ++ newer).
    rewrite app_assoc. reflexivity.
Qed.

Lemma chat_waiting_run (evs : list Chat.Event) (s : Chat.State) :
  Forall (fun ev => chat_waiting ev = true) evs ->
  Chat.isLoading s = true ->
  let s' := Chat.run evs s in
  Chat.isLoading s' = true
  /\ Chat.pending s' = Chat.pending s
  /\ Chat.messages s' = Chat.messages s
  /\ Chat.console s' = Chat.console s.
Proof.
  intros Hf. revert s. induction Hf as [|ev evs Hev Hf IH]; intros s L; simpl.
  - repeat split; assumption.
  - assert (Hs : Chat.isLoading (Chat.step s ev) = true
                 /\ Chat.pending (Chat.step s ev) = Chat.pending s
                 /\ Chat.messages (Chat.step s ev) = Chat.messages s
                 /\ Chat.console (Chat.step s ev) = Chat.console s).
    { destruct ev; try discriminate Hev; simpl; try (repeat split; assumption).
      unfold Chat.handleSendMessage. rewrite L, orb_true_r.
      repeat split; assumption. }
    destruct Hs as (S1 & S2 & S3 & S4).
    destruct (IH _ S1) as (I1 & I2 & I3 & I4).
    repeat split; congruence.
Qed.

(** X17.  One exchange of [ChatView], from a state that is not loading and
    has text that is not blank or an image attached: the question is
    appended at once with the text and image as they were, and the input
    and the attachment are cleared; while the request is out, further sends
    are ignored and nothing typed or attached reaches the conversation;
    when the answer comes exactly one reply is appended — the text of the
    service, or the error message with the error mark when the service
    throws — and the loading flag goes down. *)
Theorem chat_exchange_round (s : Chat.State) (evs : list Chat.Event)
    (answer : GenAI.Error + GenAI.GenerateContentResponse)
    (q_id q_ts a_id a_ts : Z) :
  Chat.isLoading s = false ->
  blank (Chat.inputValue s) = false \/ truthy (Chat.selectedImage s) = true ->
  Forall (fun ev => chat_waiting ev = true) evs ->
  let question :=
    Chat.mkMsg (Chat.Millis q_id) Chat.User (Chat.inputValue s)
      (if truthy (Chat.selectedImage s) then Chat.selectedImage s else None)
      q_ts false in
  let s1 := Chat.step s (Chat.Send q_id q_ts) in
  let s' := Chat.run (Chat.Send q_id q_ts :: evs ++ [Chat.Answered answer a_id a_ts]) s in
  (Chat.messages s1 = Chat.messages s ++ [question]
   /\ Chat.inputValue s1 = [] /\ Chat.selectedImage s1 = None
   /\ Chat.isLoading s1 = true)
  /\ Chat.messages s'
     = Chat.messages s ++ [question; chat_reply answer a_id a_ts]
  /\ Chat.isLoading s' = false
  /\ (Chat.isError (chat_reply answer a_id a_ts) = true <-> exists e, answer = inl e)
  /\ Chat.text (chat_reply answer a_id a_ts) <> [].
Proof.
  intros L Hg Hf. cbv zeta.
  assert (Hguard : blank (Chat.inputValue s) && negb (truthy (Chat.selectedImage s))
                   || Chat.isLoading s = false).
  { rewrite L, orb_false_r. destruct Hg as [H|H]; rewrite H;
      [reflexivity | apply andb_false_r]. }
  assert (E1 : Chat.step s (Chat.Send q_id q_ts)
               = Chat.mkState
                   (Chat.messages s
                    ++ [Chat.mkMsg (Chat.Millis q_id) Chat.User (Chat.inputValue s)
                          (if truthy (Chat.selectedImage s)
                           then Chat.selectedImage s else None) q_ts false])
                   [] None true
                   (Some (Chat.mkMsg (Chat.Millis q_id) Chat.User (Chat.inputValue s)
                            (if truthy (Chat.selectedImage s)
                             then Chat.selectedImage s else None) q_ts false))
                   (Chat.console s)).
  { simpl. unfold Chat.handleSendMessage. rewrite Hguard. reflexivity. }
  split; [rewrite E1; repeat split|].
  change (Chat.run (Chat.Send q_id q_ts :: evs ++ [Chat.Answered answer a_id a_ts]) s)
    with (Chat.run (evs ++ [Chat.Answered answer a_id a_ts])
            (Chat.step s (Chat.Send q_id q_ts))).
  set (s1 := Chat.step s (Chat.Send q_id q_ts)) in *.
  unfold Chat.run. rewrite fold_left_app.
  change (fold_left Chat.step evs s1) with (Chat.run evs s1).
  destruct (@chat_waiting_run evs s1 Hf) as (I1 & I2 & I3 & I4).
  { rewrite E1. reflexivity. }
  assert (P1 : Chat.pending s1 <> None) by (rewrite E1; discriminate).
  assert (M1 : Chat.messages s1
               = Chat.messages s
                 ++ [Chat.mkMsg (Chat.Millis q_id) Chat.User (Chat.inputValue s)
                       (if truthy (Chat.selectedImage s)
                        then Chat.selectedImage s else None) q_ts false])
    by (rewrite E1; reflexivity).
  clearbody s1.
  cbn [fold_left Chat.step].
  destruct (Chat.pending (Chat.run evs s1)) as [m|] eqn:Ep;
    [|exfalso; apply P1; congruence].
  unfold Chat.handleSendMessage_resume, chat_reply.
  destruct (GenAI.generateText answer) as [logs [e|t]] eqn:G; simpl.
  - split; [rewrite I3, M1, <- app_assoc; reflexivity|]. split; [reflexivity|].
    split; [|discriminate].
    split; [intros _|reflexivity].
    unfold GenAI.generateText in G. destruct answer as [e'|r]; simpl in G;
      [exists e'; reflexivity | discriminate G].
  - split; [rewrite I3, M1, <- app_assoc; reflexivity|]. split; [reflexivity|].
    split.
    + split; [discriminate|]. intros [e' He]. subst answer. discriminate G.
    + unfold GenAI.generateText in G. destruct answer as [e'|r]; simpl in G;
        [discriminate G|]. inversion G; subst.
      destruct (GenAI.responseText r) as [[|c u]|]; simpl; discriminate.
Qed.

Lemma chat_exchange_round_witness :
  Chat.isLoading
    (Chat.run
       [Chat.SetInput (js "hello"); Chat.Send 10 11; Chat.Send 12 13;
        Chat.SetInput (js "more"); Chat.Answered (inl (GenAI.ApiError 500)) 20 21]
       (Chat.initial 0))
  = false.
Proof.
  exact (proj1 (proj2 (proj2 (@chat_exchange_round
                  (Chat.step (Chat.initial 0) (Chat.SetInput (js "hello")))
                  [Chat.Send 12 13; Chat.SetInput (js "more")]
                  (inl (GenAI.ApiError 500)) 10 11 20 21 eq_refl
                  (or_introl eq_refl) ltac:(repeat constructor))))).
Defined.

Lemma starts_with_app (p s : jsstring) : Chat.starts_with p (p ++ s) = Some s.
Proof.
  induction p as [|a p IH]; simpl; [destruct s; reflexivity|].
  rewrite N.eqb_refl. exact IH.
Qed.

Lemma starts_with_sound (p s r : jsstring) :
  Chat.starts_with p s = Some r -> s = p ++ r.
Proof.
  revert s. induction p as [|a p IH]; intros s H.
  - destruct s; inversion H; reflexivity.
  - destruct s as [|b s]; [discriminate H|]. simpl in H.
    destruct (N.eqb_spec a b) as [E|E]; [|discriminate H].
    subst b. simpl. f_equal. apply IH. exact H.
Qed.

Lemma greedy_split_none (before s : jsstring) :
  ~ In 59%N s -> Chat.greedy_split before s = None.
Proof.
  revert before. induction s as [|c s IH]; intros before H; [reflexivity|].
  cbn [Chat.greedy_split]. rewrite IH by (intros Hi; apply H; right; exact Hi).
  change Chat.marker with (59%N :: js "base64,"). cbn [Chat.starts_with].
  destruct (N.eqb_spec 59 c) as [E|E]; [|reflexivity].
  exfalso. apply H. left. symmetry. exact E.
Qed.

Lemma greedy_split_last (before m d : jsstring) :
  before ++ m <> [] -> d <> [] -> ~ In 59%N d ->
  Chat.greedy_split before (m ++ Chat.marker ++ d) = Some (rev before ++ m, d).
Proof.
  revert before. induction m as [|c m IH]; intros before Hb Hd Hs.
  - rewrite app_nil_r in *. cbn [app].
    change (Chat.marker ++ d) with (59%N :: js "base64," ++ d).
    cbn [Chat.greedy_split]. rewrite greedy_split_none.
    + change (59%N :: js "base64," ++ d) with (Chat.marker ++ d).
      rewrite starts_with_app. destruct d as [|x d]; [contradiction Hd; reflexivity|].
      destruct before; [contradiction Hb; reflexivity | reflexivity].
    + intros Hi. apply in_app_or in Hi. destruct Hi as [Hi|Hi]; [|exact (Hs Hi)].
      simpl in Hi. repeat (destruct Hi as [Hi|Hi]; [discriminate Hi|]). exact Hi.
  - cbn [app Chat.greedy_split]. rewrite IH; [| discriminate | exact Hd | exact Hs].
    simpl. rewrite <- app_assoc. reflexivity.
Qed.

Lemma greedy_split_sound (before s g1 g2 : jsstring) :
  Chat.greedy_split before s = Some (g1, g2) ->
  rev before ++ s = g1 ++ Chat.marker ++ g2 /\ g1 <> [] /\ g2 <> [].
Proof.
  revert before. induction s as [|c s IH]; intros before H; [discriminate H|].
  cbn [Chat.greedy_split] in H.
  destruct (Chat.greedy_split (c :: before) s) as [r|] eqn:E.
  - inversion H; subst r. destruct (IH _ E) as (E1 & E2 & E3).
    simpl in E1. rewrite <- app_assoc in E1. split; [exact E1|]. split; assumption.
  - destruct (Chat.starts_with Chat.marker (c :: s)) as [[|x after]|] eqn:S;
      try discriminate H.
    destruct before as [|b before]; [discriminate H|]. simpl in H.
    inversion H; subst. apply starts_with_sound in S. rewrite S.
    split; [reflexivity|]. split; [|discriminate].
    intros F. apply (f_equal (@List.length N)) in F.
    rewrite length_app in F. simpl in F. lia.
Qed.

Lemma existsb_app_false {A} (f : A -> bool) (a b : list A) :
  existsb f (a ++ b) = false -> existsb f a = false /\ existsb f b = false.
Proof. rewrite existsb_app. apply orb_false_iff. Qed.

Lemma data_uri_parts (image mime base64 : jsstring) :
  Chat.matchDataUri image = Some (mime, base64) ->
  image = js "data:" ++ mime ++ js ";base64," ++ base64
  /\ mime <> [] /\ base64 <> []
  /\ existsb isLineTerminator (mime ++ base64) = false.
Proof.
  intros H. unfold Chat.matchDataUri in H.
  destruct (Chat.starts_with (js "data:") image) as [rest|] eqn:S; [|discriminate H].
  destruct (existsb isLineTerminator rest) eqn:L; [discriminate H|].
  apply starts_with_sound in S. apply greedy_split_sound in H.
  destruct H as (E & Hm & Hd). simpl in E. subst rest. subst image.
  split; [reflexivity|]. split; [exact Hm|]. split; [exact Hd|].
  destruct (existsb_app_false _ mime (Chat.marker ++ base64) L) as [L1 L2].
  destruct (existsb_app_false _ Chat.marker base64 L2) as [_ L3].
  rewrite existsb_app, L1, L3. reflexivity.
Qed.

(** X18.  The image of a chat message is read as a data URI the way the
    pattern [^data:(.+);base64,(.+)$] reads it.  What is read out is really
    there: the image is [data:] + mime + [;base64,] + data with neither
    part empty and no line terminator in either.  And a URI put together
    from a mime type and data, neither empty nor containing a line
    terminator, the data free of semicolons (as base64 text is), is read
    back as exactly that mime type and that data. *)
Theorem data_uri_read_back :
  (forall image mime base64,
     Chat.matchDataUri image = Some (mime, base64) ->
     image = js "data:" ++ mime ++ js ";base64," ++ base64
     /\ mime <> [] /\ base64 <> []
     /\ existsb isLineTerminator (mime ++ base64) = false)
  /\ (forall mime base64,
        mime <> [] -> base64 <> [] ->
        existsb isLineTerminator mime = false ->
        existsb isLineTerminator base64 = false ->
        ~ In 59%N base64 ->
        Chat.matchDataUri (js "data:" ++ mime ++ js ";base64," ++ base64)
        = Some (mime, base64)).
Proof.
  split.
  - exact data_uri_parts.
  - intros mime d Hm Hd Lm Ld Hs. unfold Chat.matchDataUri.
    rewrite starts_with_app.
    assert (L : existsb isLineTerminator (mime ++ js ";base64," ++ d) = false).
    { rewrite !existsb_app, Lm, Ld. reflexivity. }
    rewrite L. apply (@greedy_split_last [] mime d); [|exact Hd | exact Hs].
    simpl. exact Hm.
Qed.

Lemma data_uri_read_back_witness :
  Chat.matchDataUri (js "data:image/png;base64,QUJD")
  = Some (js "image/png", js "QUJD").
Proof.
  apply (proj2 data_uri_read_back (js "image/png") (js "QUJD")).
  - discriminate.
  - discriminate.
  - reflexivity.
  - reflexivity.
  - simpl. intros H. repeat (destruct H as [H|H]; [discriminate H|]). exact H.
Defined.

Example data_uri_greedy :
  Chat.matchDataUri (js "data:a;base64,b;base64,c") = Some (js "a;base64,b", js "c").
Proof. reflexivity. Qed.

Example data_uri_needs_both_groups :
  Chat.matchDataUri (js "data:;base64,QUJD") = None
  /\ Chat.matchDataUri (js "data:image/png;base64,") = None.
Proof. split; reflexivity. Qed.

(** X19.  What an attached image becomes in the request of [ChatView]: the
    question carries the image as attached; when the image reads as a data
    URI, the request has two parts, the image first — with the mime type
    and the data read out of the URI — and the text second; when it does
    not read as one, the request is the text alone and the image is not
    sent, without an error. *)
Theorem chat_request_for_image (s : Chat.State) (q_id q_ts : Z) (image : jsstring) :
  Chat.isLoading s = false ->
  Chat.selectedImage s = Some image ->
  image <> [] ->
  exists question,
    Chat.pending (Chat.handleSendMessage q_id q_ts s) = Some question
    /\ Chat.image question = Some image
    /\ Chat.text question = Chat.inputValue s
    /\ Chat.chatRequest question
       = match Chat.matchDataUri image with
         | Some (mime, base64) =>
             GenAI.mkRequest GenAI.TEXT_MODEL
               (GenAI.Parts
                  [GenAI.mkPart (Some (GenAI.mkBlob (Some mime) (Some base64))) None;
                   GenAI.mkPart None (Some (Chat.inputValue s))])
               None
         | None =>
             GenAI.mkRequest GenAI.TEXT_MODEL (GenAI.PromptOnly (Chat.inputValue s)) None
         end.
Proof.
  intros L Hi Hne. unfold Chat.handleSendMessage. rewrite L, Hi.
  destruct image as [|c image]; [contradiction Hne; reflexivity|].
  cbn [truthy nonempty negb]. rewrite andb_false_r. cbn [orb].
  eexists. split; [reflexivity|]. split; [reflexivity|]. split; [reflexivity|].
  unfold Chat.chatRequest. cbn [Chat.image Chat.text opt_bind].
  destruct (Chat.matchDataUri (c :: image)) as [[mime d]|] eqn:M; [|reflexivity].
  destruct (data_uri_parts _ M) as (_ & _ & Hd & _).
  destruct d as [|x d]; [contradiction Hd; reflexivity | reflexivity].
Qed.

Lemma chat_request_for_image_witness :
  exists question,
    Chat.pending
      (Chat.handleSendMessage 10 11
         (Chat.run [Chat.ImageLoaded (js "data:image/png;base64,QUJD");
                    Chat.SetInput (js "what is this?")]
            (Chat.initial 0)))
    = Some question
    /\ Chat.chatRequest question
       = GenAI.mkRequest GenAI.TEXT_MODEL
           (GenAI.Parts
              [GenAI.mkPart (Some (GenAI.mkBlob (Some (js "image/png"))
                                     (Some (js "QUJD")))) None;
               GenAI.mkPart None (Some (js "what is this?"))])
           None.
Proof.
  destruct (@chat_request_for_image
              (Chat.run [Chat.ImageLoaded (js "data:image/png;base64,QUJD");
                         Chat.SetInput (js "what is this?")]
                 (Chat.initial 0))
              10 11 (js "data:image/png;base64,QUJD") eq_refl eq_refl
              ltac:(discriminate))
    as [question [H1 [_ [_ H2]]]].
  exists question. split; [exact H1 | exact H2].
Defined.
